(** * HTTPRoute translation (pkg/providers/gateway/translation/gateway_httproute.go)

    A shallow embedding of the Gateway-API HTTPRoute translator: the match
    compiler, the filter compiler, the backend aggregation loop and the route
    assembly loop, with the properties the specification states about them.

    Go strings are byte strings ([string] of [ascii]); Go maps are [gmap]s;
    nullable pointers are [option]s; a function returning [(v, error)] returns
    a [result], whose third outcome is the run-time panic of a nil
    dereference. *)

From Stdlib Require Import ZArith Lia Ascii String List.
From stdpp Require Import base option strings pretty gmap list.

Local Open Scope Z_scope.
Local Open Scope string_scope.
Local Open Scope list_scope.

(** ** Go runtime and standard library *)

Module Go.

(** [errors.New] and [errors.Wrap] of github.com/pkg/errors. *)
Inductive error : Type :=
  | errors_New (msg : string)
  | errors_Wrap (cause : error) (msg : string).

(** The text of an error: a wrapped one reads "msg: cause". *)
Fixpoint Error (e : error) : string :=
  match e with
  | errors_New msg => msg
  | errors_Wrap cause msg => msg +:+ ": " +:+ Error cause
  end.

(** The outcome of a call that returns [(value, error)]. *)
Inductive result (A : Type) : Type :=
  | Ok (a : A)
  | Err (e : error)
  | Panic.
Global Arguments Ok {A} a.
Global Arguments Err {A} e.
Global Arguments Panic {A}.

Global Instance result_ret : MRet result := λ A a, Ok a.
Global Instance result_bind : MBind result := λ A B k m,
  match m with
  | Ok a => k a
  | Err e => Err e
  | Panic => Panic
  end.

(** [*p] for a pointer [p]. *)
Definition deref {A : Type} (p : option A) : result A :=
  match p with
  | Some a => Ok a
  | None => Panic
  end.

Fixpoint string_map (f : ascii → ascii) (s : string) : string :=
  match s with
  | EmptyString => EmptyString
  | String c s' => String (f c) (string_map f s')
  end.

Definition is_upper (c : ascii) : bool :=
  (65 <=? N_of_ascii c)%N && (N_of_ascii c <=? 90)%N.

Definition lower_ascii (c : ascii) : ascii :=
  if is_upper c then ascii_of_N (N_of_ascii c + 32) else c.

(** [strings.ToLower] on the ASCII letters; the bytes of other characters are
    kept.  Kubernetes kinds, HTTP header names and query names are ASCII. *)
Definition strings_ToLower (s : string) : string := string_map lower_ascii s.

(** [strings.ReplaceAll s old new] for one-byte [old] and [new]. *)
Definition strings_ReplaceAll (s : string) (old new : ascii) : string :=
  string_map (λ c, if Ascii.eqb c old then new else c) s.

(** [int32(x)]: two's complement wrap-around to 32 bits. *)
Definition int32 (x : Z) : Z := (x + 2 ^ 31) `mod` 2 ^ 32 - 2 ^ 31.

(** [fmt.Sprintf("%v", x)] and ["%d"] for an integer. *)
Definition Sprint_int (x : Z) : string := pretty x.

End Go.
Export Go.

(** ** Gateway API input types (sigs.k8s.io/gateway-api/apis/v1alpha2) *)

(** The match-type enumerations are string types; their constants: *)
Definition PathMatchExact : string := "Exact".
Definition PathMatchPathPrefix : string := "PathPrefix".
Definition PathMatchRegularExpression : string := "RegularExpression".
Definition HeaderMatchExact : string := "Exact".
Definition HeaderMatchRegularExpression : string := "RegularExpression".
Definition QueryParamMatchExact : string := "Exact".
Definition QueryParamMatchRegularExpression : string := "RegularExpression".
Definition HTTPRouteFilterRequestHeaderModifier : string := "RequestHeaderModifier".
Definition HTTPRouteFilterRequestRedirect : string := "RequestRedirect".
Definition HTTPRouteFilterRequestMirror : string := "RequestMirror".

Record HTTPPathMatch : Type := {
  path_Type : option string;
  path_Value : option string
}.

Record HTTPHeaderMatch : Type := {
  header_Type : option string;
  header_Name : string;
  header_Value : string
}.

Record HTTPQueryParamMatch : Type := {
  query_Type : option string;
  query_Name : string;
  query_Value : string
}.

Record HTTPRouteMatch : Type := {
  Path : option HTTPPathMatch;
  Headers : list HTTPHeaderMatch;
  QueryParams : list HTTPQueryParamMatch;
  Method : option string
}.

Record HTTPHeader : Type := {
  hdr_Name : string;
  hdr_Value : string
}.

Record HTTPRequestHeaderFilter : Type := {
  Set_ : list HTTPHeader;
  Add : list HTTPHeader;
  Remove : list string
}.

Record HTTPRequestRedirectFilter : Type := {
  redirect_Scheme : option string;
  redirect_Hostname : option string;
  redirect_Port : option Z;
  redirect_StatusCode : option Z
}.

Record HTTPRouteFilter : Type := {
  filter_Type : string;
  RequestHeaderModifier : option HTTPRequestHeaderFilter;
  RequestRedirect : option HTTPRequestRedirectFilter
}.

Record HTTPBackendRef : Type := {
  backend_Kind : option string;
  backend_Namespace : option string;
  backend_Name : string;
  backend_Port : option Z;
  backend_Weight : option Z
}.

Record HTTPRouteRule : Type := {
  Matches : list HTTPRouteMatch;
  Filters : list HTTPRouteFilter;
  BackendRefs : list HTTPBackendRef
}.

Record HTTPRoute : Type := {
  Namespace : string;
  Name : string;
  Hostnames : list string;
  Rules : list HTTPRouteRule
}.

(** ** Gateway objects (pkg/types/apisix/v1) *)

Record StringOrSlice : Type := {
  StrVal : string;
  SliceVal : list string
}.

Definition StrOnly (s : string) : StringOrSlice :=
  {| StrVal := s; SliceVal := [] |}.

Record TrafficSplitConfigRuleWeightedUpstream : Type := {
  UpstreamID : string;
  Weight : Z
}.

Record TrafficSplitConfigRule : Type := {
  WeightedUpstreams : list TrafficSplitConfigRuleWeightedUpstream
}.

(** The values stored in a plugin map ([map[string]any]). *)
Inductive PluginConfig : Type :=
  | RewriteConfig (headers : gmap string string)
  | RedirectConfig (RetCode : Z) (URI : string)
  | TrafficSplitConfig (rules : list TrafficSplitConfigRule).

Abbreviation Plugins := (gmap string PluginConfig).

Record Route : Type := {
  route_ID : string;
  Uri : string;
  Hosts : list string;
  Vars : list (list StringOrSlice);
  Methods : list string;
  route_Plugins : Plugins;
  UpstreamId : string
}.

Record Upstream : Type := {
  ups_ID : string;
  ups_Name : string;
  ups_Labels : gmap string string;
  ups_Nodes : list (string * Z * Z)
}.

(** Modelled from the spec: [NewDefaultRoute] is declared outside the
    translated file; the route it returns is the one no field of which has
    been set yet. *)
Definition NewDefaultRoute : Route :=
  {| route_ID := ""; Uri := ""; Hosts := []; Vars := []; Methods := [];
     route_Plugins := ∅; UpstreamId := "" |}.

Definition set_Uri (r : Route) (u : string) : Route :=
  {| route_ID := route_ID r; Uri := u; Hosts := Hosts r; Vars := Vars r;
     Methods := Methods r; route_Plugins := route_Plugins r;
     UpstreamId := UpstreamId r |}.

Definition append_Vars (r : Route) (v : list StringOrSlice) : Route :=
  {| route_ID := route_ID r; Uri := Uri r; Hosts := Hosts r;
     Vars := Vars r ++ [v]; Methods := Methods r;
     route_Plugins := route_Plugins r; UpstreamId := UpstreamId r |}.

Definition set_Methods (r : Route) (ms : list string) : Route :=
  {| route_ID := route_ID r; Uri := Uri r; Hosts := Hosts r; Vars := Vars r;
     Methods := ms; route_Plugins := route_Plugins r;
     UpstreamId := UpstreamId r |}.

Definition set_Plugins (r : Route) (ps : Plugins) : Route :=
  {| route_ID := route_ID r; Uri := Uri r; Hosts := Hosts r; Vars := Vars r;
     Methods := Methods r; route_Plugins := ps; UpstreamId := UpstreamId r |}.

Definition set_UpstreamId (r : Route) (u : string) : Route :=
  {| route_ID := route_ID r; Uri := Uri r; Hosts := Hosts r; Vars := Vars r;
     Methods := Methods r; route_Plugins := route_Plugins r; UpstreamId := u |}.

Definition set_ID_Hosts (r : Route) (i : string) (hs : list string) : Route :=
  {| route_ID := i; Uri := Uri r; Hosts := hs; Vars := Vars r;
     Methods := Methods r; route_Plugins := route_Plugins r;
     UpstreamId := UpstreamId r |}.

(** ** The match compiler: [translateGatewayHTTPRouteMatch] *)

(** The [switch *match.Path.Type] block. *)
Definition translate_path (route : Route) (p : HTTPPathMatch) : result Route :=
  ty ← deref (path_Type p);
  if decide (ty = PathMatchExact) then
    v ← deref (path_Value p); Ok (set_Uri route v)
  else if decide (ty = PathMatchPathPrefix) then
    v ← deref (path_Value p); Ok (set_Uri route (v +:+ "*"))
  else if decide (ty = PathMatchRegularExpression) then
    v ← deref (path_Value p);
    Ok (append_Vars route [StrOnly "uri"; StrOnly "~~"; StrOnly v])
  else Err (errors_New ("unknown path match type " +:+ ty)).

(** One iteration of [for _, header := range match.Headers]. *)
Definition translate_header (route : Route) (header : HTTPHeaderMatch)
    : result Route :=
  let name := strings_ToLower (header_Name header) in
  let name := strings_ReplaceAll name "-" "_" in
  let this := [StrOnly ("http_" +:+ name)] in
  ty ← deref (header_Type header);
  this ← (if decide (ty = HeaderMatchExact) then Ok (this ++ [StrOnly "=="])
          else if decide (ty = HeaderMatchRegularExpression)
            then Ok (this ++ [StrOnly "~~"])
          else Err (errors_New ("unknown header match type " +:+ ty)));
  Ok (append_Vars route (this ++ [StrOnly (header_Value header)])).

(** One iteration of [for _, query := range match.QueryParams]. *)
Definition translate_query (route : Route) (query : HTTPQueryParamMatch)
    : result Route :=
  let this := [StrOnly ("arg_" +:+ strings_ToLower (query_Name query))] in
  ty ← deref (query_Type query);
  this ← (if decide (ty = QueryParamMatchExact) then Ok (this ++ [StrOnly "=="])
          else if decide (ty = QueryParamMatchRegularExpression)
            then Ok (this ++ [StrOnly "~~"])
          else Err (errors_New ("unknown query match type " +:+ ty)));
  Ok (append_Vars route (this ++ [StrOnly (query_Value query)])).

(** A [for ... range] loop whose body may return early. *)
Fixpoint range_loop {A St : Type} (body : St → A → result St) (s : St) (l : list A)
    : result St :=
  match l with
  | [] => Ok s
  | a :: l' => s' ← body s a; range_loop body s' l'
  end.

Definition translateGatewayHTTPRouteMatch (match_ : HTTPRouteMatch)
    : result Route :=
  let route := NewDefaultRoute in
  route ← (match Path match_ with
           | Some p => translate_path route p
           | None => Ok route
           end);
  route ← range_loop translate_header route (Headers match_);
  route ← range_loop translate_query route (QueryParams match_);
  Ok (match Method match_ with
      | Some m => set_Methods route [m]
      | None => route
      end).

(** ** The filter compiler *)

Definition generatePluginFromHTTPRequestHeaderFilter (plugins : Plugins)
    (reqHeaderModifier : option HTTPRequestHeaderFilter) : Plugins :=
  match reqHeaderModifier with
  | None => plugins
  | Some m =>
    let headers : gmap string string := ∅ in
    let headers :=
      foldl (λ hs header, <[hdr_Name header := hdr_Value header]> hs)
            headers (Add m) in
    let headers :=
      foldl (λ hs header, <[hdr_Name header := hdr_Value header]> hs)
            headers (Set_ m) in
    let headers := foldl (λ hs header, <[header := ""]> hs) headers (Remove m) in
    <["proxy-rewrite" := RewriteConfig headers]> plugins
  end.

Definition generatePluginFromHTTPRequestRedirectFilter (plugins : Plugins)
    (reqRedirect : option HTTPRequestRedirectFilter) : Plugins :=
  match reqRedirect with
  | None => plugins
  | Some r =>
    let code := default 302 (redirect_StatusCode r) in
    let hostname := default "$host" (redirect_Hostname r) in
    let scheme := default "$scheme" (redirect_Scheme r) in
    let uri :=
      match redirect_Port r with
      | Some port =>
        scheme +:+ "://" +:+ hostname +:+ ":" +:+ Sprint_int port
               +:+ "$request_uri"
      | None => scheme +:+ "://" +:+ hostname +:+ "$request_uri"
      end in
    <["redirect" := RedirectConfig code uri]> plugins
  end.

(** The body of [for _, filter := range filters]: a [switch] on the type. *)
Definition filter_step (plugins : Plugins) (filter : HTTPRouteFilter) : Plugins :=
  if decide (filter_Type filter = HTTPRouteFilterRequestHeaderModifier) then
    generatePluginFromHTTPRequestHeaderFilter plugins
      (RequestHeaderModifier filter)
  else if decide (filter_Type filter = HTTPRouteFilterRequestRedirect) then
    generatePluginFromHTTPRequestRedirectFilter plugins (RequestRedirect filter)
  else if decide (filter_Type filter = HTTPRouteFilterRequestMirror) then
    plugins
  else plugins.

Definition generatePluginsFromHTTPRouteFilter (filters : list HTTPRouteFilter)
    : Plugins :=
  foldl filter_step ∅ filters.

(** ** The translation context (pkg/providers/translation) *)

Record TranslateContext : Type := {
  Routes : gmap string Route;
  Upstreams : gmap string Upstream
}.

(** Modelled from the spec: the context type and its three operations are
    declared outside the translated file.  The context holds two key-unique
    collections, created empty; [AddRoute] and [AddUpstream] add or replace
    by identifier. *)
Definition DefaultEmptyTranslateContext : TranslateContext :=
  {| Routes := ∅; Upstreams := ∅ |}.

Definition AddRoute (r : Route) (ctx : TranslateContext) : TranslateContext :=
  {| Routes := <[route_ID r := r]> (Routes ctx); Upstreams := Upstreams ctx |}.

Definition AddUpstream (u : Upstream) (ctx : TranslateContext)
    : TranslateContext :=
  {| Routes := Routes ctx; Upstreams := <[ups_ID u := u]> (Upstreams ctx) |}.

(** Modelled from the spec: [utils.TruncateString] is declared outside the
    translated file; it keeps the first [max] characters of [s]. *)
Fixpoint TruncateString (s : string) (max : nat) : string :=
  match max, s with
  | S n, String c s' => String c (TruncateString s' n)
  | _, _ => EmptyString
  end.

(** The receiver [t *translator]: its [KubeTranslator] resolves a service
    (namespace, name, subset, port) to an upstream whose label map is
    allocated. *)
Record translator : Type := {
  TranslateService : string → string → string → Z → result Upstream
}.

(** A [for i, x := range l] loop whose body may return early. *)
Fixpoint range_loop_from {A St : Type} (body : nat → St → A → result St)
    (i : nat) (s : St) (l : list A) : result St :=
  match l with
  | [] => Ok s
  | a :: l' => s' ← body i s a; range_loop_from body (S i) s' l'
  end.

Definition set_label (k v : string) (u : Upstream) : Upstream :=
  {| ups_ID := ups_ID u; ups_Name := ups_Name u;
     ups_Labels := <[k := v]> (ups_Labels u); ups_Nodes := ups_Nodes u |}.

Definition set_ups_ID (i : string) (u : Upstream) : Upstream :=
  {| ups_ID := i; ups_Name := ups_Name u; ups_Labels := ups_Labels u;
     ups_Nodes := ups_Nodes u |}.

Definition index_string (i : nat) : string := Sprint_int (Z.of_nat i).

(** What one pass through the backend loop body does.  The warnings of
    [log.Warnw] go to the process log, which the translation never reads;
    the message is kept here as the payload of [Skipped]. *)
Inductive backend_outcome : Type :=
  | Skipped (warning : string)
  | Resolved (ups : Upstream).

Section Translation.

(** Helpers of other packages, left abstract: [id.GenID],
    [apisixv1.ComposeUpstreamName], [apisixv1.ComposeRouteName] and the
    constant [types.ResolveGranularity.Endpoint]. *)
Variable GenID : string → string.
Variable ComposeUpstreamName : string → string → string → Z → string → string.
Variable ComposeRouteName : string → string → string → string.
Variable ResolveGranularity_Endpoint : string.

Variable t : translator.
Variable httpRoute : HTTPRoute.

Definition backend_kind (backend : HTTPBackendRef) : string :=
  match backend_Kind backend with
  | None => "service"
  | Some k => strings_ToLower k
  end.

Definition backend_ns (backend : HTTPBackendRef) : string :=
  match backend_Namespace backend with
  | None => Namespace httpRoute
  | Some ns => ns
  end.

(** Lines 135-177 of the backend loop body.  [Skipped w] stands for
    [continue] after the warning [w] was logged; [Resolved ups] carries the
    upstream handed to [ctx.AddUpstream]. *)
Definition resolve_backend (i j : nat) (backend : HTTPBackendRef)
    : result backend_outcome :=
  let kind := backend_kind backend in
  if decide (kind ≠ "service") then
    Ok (Skipped ("ignore non-service kind at Rules[" +:+ index_string i
                   +:+ "].BackendRefs[" +:+ index_string j +:+ "]"))
  else
    let ns := backend_ns backend in
    match backend_Port backend with
    | None =>
      Ok (Skipped ("ignore nil port at Rules[" +:+ index_string i
                     +:+ "].BackendRefs[" +:+ index_string j +:+ "]"))
    | Some port =>
      match TranslateService t ns (backend_Name backend) "" (int32 port) with
      | Err err =>
        Err (errors_Wrap err
               ("failed to translate Rules[" +:+ index_string i
                  +:+ "].BackendRefs[" +:+ index_string j +:+ "]"))
      | Panic => Panic
      | Ok ups =>
        let name :=
          ComposeUpstreamName ns (backend_Name backend) "" (int32 port)
                              ResolveGranularity_Endpoint in
        let ups := set_label "meta_namespace" (TruncateString ns 64) ups in
        let ups :=
          set_label "meta_backend"
                    (TruncateString (backend_Name backend) 64) ups in
        let ups := set_label "meta_port" (Sprint_int (int32 port)) ups in
        let ups := set_ups_ID (GenID name) ups in
        Ok (Resolved ups)
      end
    end.

Definition backend_weight (backend : HTTPBackendRef) : Z :=
  match backend_Weight backend with
  | None => 1
  | Some w => w
  end.

(** The state of the backend loop: the context, [ruleUpstreams] and
    [weightedUpstreams]. *)
Definition backend_state : Type :=
  TranslateContext * list Upstream
    * list TrafficSplitConfigRuleWeightedUpstream.

Definition backend_step (i j : nat) (st : backend_state)
    (backend : HTTPBackendRef) : result backend_state :=
  let '(ctx, ruleUpstreams, weightedUpstreams) := st in
  r ← resolve_backend i j backend;
  match r with
  | Skipped _ => Ok st
  | Resolved ups =>
    Ok (AddUpstream ups ctx, ruleUpstreams ++ [ups],
        weightedUpstreams
          ++ [ {| UpstreamID := ups_ID ups;
                  Weight := backend_weight backend |} ])
  end.

Definition default_match : HTTPRouteMatch :=
  {| Path := Some {| path_Type := Some PathMatchPathPrefix;
                     path_Value := Some "/" |};
     Headers := []; QueryParams := []; Method := None |}.

Definition route_name (i j : nat) : string :=
  ComposeRouteName (Namespace httpRoute) (Name httpRoute)
                   (index_string i +:+ "-" +:+ index_string j).

(** The body of the match loop up to [ctx.AddRoute]: the route built, and
    the rule's plugin map after the binding step.  [route.Plugins] refers
    to that shared map, so the route is recorded with the map's content
    after the step (see [bind_upstream_stable]: later iterations of the
    same rule do not change it any more). *)
Definition bind_upstream (ruleUpstreams : list Upstream)
    (weightedUpstreams : list TrafficSplitConfigRuleWeightedUpstream)
    (route : Route) (plugins : Plugins) : result (Route * Plugins) :=
  let route := set_Plugins route plugins in
  if decide (length ruleUpstreams = 1%nat) then
    match deref (ruleUpstreams !! 0%nat) with
    | Ok u => Ok (set_UpstreamId route (ups_ID u), plugins)
    | Err e => Err e
    | Panic => Panic
    end
  else if decide (0 < length ruleUpstreams)%nat then
    let plugins :=
      <["traffic-split" :=
          TrafficSplitConfig
            [ {| WeightedUpstreams := weightedUpstreams |} ]]> plugins in
    Ok (set_Plugins route plugins, plugins)
  else Ok (route, plugins).

Definition assemble_route (hosts : list string)
    (ruleUpstreams : list Upstream)
    (weightedUpstreams : list TrafficSplitConfigRuleWeightedUpstream)
    (i j : nat) (plugins : Plugins) (match_ : HTTPRouteMatch)
    : result (Route * Plugins) :=
  match translateGatewayHTTPRouteMatch match_ with
  | Err err =>
    Err (errors_Wrap err
           ("failed to translate Rules[" +:+ index_string i
              +:+ "].Matches[" +:+ index_string j +:+ "]"))
  | Panic => Panic
  | Ok route =>
    let route := set_ID_Hosts route (GenID (route_name i j)) hosts in
    bind_upstream ruleUpstreams weightedUpstreams route plugins
  end.

Definition match_step (hosts : list string) (ruleUpstreams : list Upstream)
    (weightedUpstreams : list TrafficSplitConfigRuleWeightedUpstream)
    (i j : nat) (st : TranslateContext * Plugins) (match_ : HTTPRouteMatch)
    : result (TranslateContext * Plugins) :=
  let '(ctx, plugins) := st in
  '(route, plugins) ← assemble_route hosts ruleUpstreams weightedUpstreams
                        i j plugins match_;
  Ok (AddRoute route ctx, plugins).

(** The body of [for i, rule := range rules]. *)
Definition rule_step (hosts : list string) (i : nat) (ctx : TranslateContext)
    (rule : HTTPRouteRule) : result TranslateContext :=
  let backends := BackendRefs rule in
  if decide (length backends = 0%nat) then Ok ctx
  else
    '(ctx, ruleUpstreams, weightedUpstreams) ←
      range_loop_from (backend_step i) 0 (ctx, [], []) backends;
    if decide (length ruleUpstreams = 0%nat) then Ok ctx
    else
      let matches := Matches rule in
      let matches :=
        if decide (length matches = 0%nat) then [default_match]
        else matches in
      let plugins := generatePluginsFromHTTPRouteFilter (Filters rule) in
      '(ctx, _) ←
        range_loop_from (match_step hosts ruleUpstreams weightedUpstreams i)
                        0 (ctx, plugins) matches;
      Ok ctx.

Definition collect_hosts (hostnames : list string) : list string :=
  foldl (λ hosts hostname, hosts ++ [hostname]) [] hostnames.

Definition TranslateGatewayHTTPRouteV1Alpha2 : result TranslateContext :=
  let ctx := DefaultEmptyTranslateContext in
  let hosts := collect_hosts (Hostnames httpRoute) in
  range_loop_from (rule_step hosts) 0 ctx (Rules httpRoute).

End Translation.

(** ** Sample collaborators, for running the translator on concrete input *)

Module Sample.

Definition GenID (name : string) : string := "id:" +:+ name.

Definition ComposeUpstreamName (ns name subset : string) (port : Z)
    (granularity : string) : string :=
  ns +:+ "_" +:+ name +:+ "_" +:+ Sprint_int port.

Definition ComposeRouteName (ns name rule : string) : string :=
  ns +:+ "_" +:+ name +:+ "_" +:+ rule.

Definition Endpoint : string := "endpoint".

Definition upstream0 (name : string) : Upstream :=
  {| ups_ID := ""; ups_Name := name; ups_Labels := ∅; ups_Nodes := [] |}.

(** A resolver that knows every service but ["missing"]. *)
Definition resolver : translator :=
  {| TranslateService ns name subset port :=
       if decide (name = "missing")
       then Err (errors_New "service not found")
       else Ok (upstream0 name) |}.

(** A resolver whose upstreams come with a label of their own. *)
Definition labelling_resolver : translator :=
  {| TranslateService ns name subset port :=
       Ok {| ups_ID := ""; ups_Name := name;
             ups_Labels := {[ "managed-by" := "controller" ]};
             ups_Nodes := [] |} |}.

Definition translate (t : translator) (h : HTTPRoute)
    : result TranslateContext :=
  TranslateGatewayHTTPRouteV1Alpha2 GenID ComposeUpstreamName
    ComposeRouteName Endpoint t h.

Definition svc (name : string) (port : option Z) (weight : option Z)
    : HTTPBackendRef :=
  {| backend_Kind := None; backend_Namespace := None; backend_Name := name;
     backend_Port := port; backend_Weight := weight |}.

Definition path_match (ty v : string) : HTTPRouteMatch :=
  {| Path := Some {| path_Type := Some ty; path_Value := Some v |};
     Headers := []; QueryParams := []; Method := None |}.

Definition route1 (rules : list HTTPRouteRule) : HTTPRoute :=
  {| Namespace := "default"; Name := "r"; Hostnames := ["foo.com"];
     Rules := rules |}.

Definition full_match : HTTPRouteMatch :=
  {| Path := Some {| path_Type := Some PathMatchRegularExpression;
                     path_Value := Some "^/v[0-9]+/" |};
     Headers :=
       [ {| header_Type := Some HeaderMatchExact; header_Name := "X-Foo";
            header_Value := "bar" |};
         {| header_Type := Some HeaderMatchRegularExpression;
            header_Name := "User-Agent"; header_Value := "curl.*" |} ];
     QueryParams :=
       [ {| query_Type := Some QueryParamMatchExact; query_Name := "ID";
            query_Value := "7" |} ];
     Method := Some "GET" |}.

Definition full_route : Route :=
  {| route_ID := ""; Uri := ""; Hosts := [];
     Vars := [ [StrOnly "uri"; StrOnly "~~"; StrOnly "^/v[0-9]+/"];
               [StrOnly "http_x_foo"; StrOnly "=="; StrOnly "bar"];
               [StrOnly "http_user_agent"; StrOnly "~~"; StrOnly "curl.*"];
               [StrOnly "arg_id"; StrOnly "=="; StrOnly "7"] ];
     Methods := ["GET"]; route_Plugins := ∅; UpstreamId := "" |}.

Definition rule_of (ms : list HTTPRouteMatch) (fs : list HTTPRouteFilter)
    (bs : list HTTPBackendRef) : HTTPRouteRule :=
  {| Matches := ms; Filters := fs; BackendRefs := bs |}.

(** No match, one backend: service "svc", port 80, no weight. *)
Definition rule_default : HTTPRouteRule :=
  rule_of [] [] [svc "svc" (Some 80) None].

(** Two matches, two weighted backends. *)
Definition rule_split : HTTPRouteRule :=
  rule_of [path_match PathMatchExact "/a"; full_match] []
          [svc "a" (Some 80) (Some 1); svc "b" (Some 8080) (Some 3)].

(** An unknown path match type, and a backend without a port. *)
Definition rule_noport : HTTPRouteRule :=
  rule_of [path_match "Bogus" "/x"] [] [svc "svc" None None].

(** An unknown path match type, and a backend that resolves. *)
Definition rule_bogus : HTTPRouteRule :=
  rule_of [path_match "Bogus" "/x"] [] [svc "svc" (Some 80) None].

(** The second backend is unknown to [resolver]. *)
Definition rule_missing : HTTPRouteRule :=
  rule_of [] []
          [svc "svc" (Some 80) None; svc "missing" (Some 80) None;
           svc "later" None None].

Definition header_filter : HTTPRouteFilter :=
  {| filter_Type := HTTPRouteFilterRequestHeaderModifier;
     RequestHeaderModifier :=
       Some {| Set_ := [ {| hdr_Name := "X-A"; hdr_Value := "set" |} ];
               Add := [ {| hdr_Name := "X-A"; hdr_Value := "add" |};
                        {| hdr_Name := "X-B"; hdr_Value := "b" |} ];
               Remove := ["X-C"] |};
     RequestRedirect := None |}.

Definition header_modifier : HTTPRequestHeaderFilter :=
  {| Set_ := [ {| hdr_Name := "X-A"; hdr_Value := "set" |} ];
     Add := [ {| hdr_Name := "X-A"; hdr_Value := "add" |};
              {| hdr_Name := "X-B"; hdr_Value := "b" |} ];
     Remove := ["X-C"] |}.

Definition resolve (t : translator) (h : HTTPRoute) (i j : nat)
    (b : HTTPBackendRef) : result backend_outcome :=
  resolve_backend GenID ComposeUpstreamName Endpoint t h i j b.

Definition step (t : translator) (h : HTTPRoute) (hosts : list string)
    (i : nat) (ctx : TranslateContext) (rule : HTTPRouteRule)
    : result TranslateContext :=
  rule_step GenID ComposeUpstreamName ComposeRouteName Endpoint t h hosts
            i ctx rule.

(** The context of a translation that returned one. *)
Definition the_ctx (r : result TranslateContext) : TranslateContext :=
  match r with
  | Ok ctx => ctx
  | _ => DefaultEmptyTranslateContext
  end.



Definition h_two : HTTPRoute := route1 [rule_default; rule_split].
Definition h_skip : HTTPRoute := route1 [rule_noport; rule_default].
Definition h_bogus : HTTPRoute := route1 [rule_default; rule_bogus].
Definition h_missing : HTTPRoute := route1 [rule_default; rule_missing].

Definition route_default (i : string) : Route :=
  {| route_ID := i; Uri := "/*"; Hosts := ["foo.com"]; Vars := [];
     Methods := []; route_Plugins := ∅; UpstreamId := "id:default_svc_80" |}.

Definition upstream_svc : Upstream :=
  {| ups_ID := "id:default_svc_80"; ups_Name := "svc";
     ups_Labels := {[ "meta_namespace" := "default";
                      "meta_backend" := "svc"; "meta_port" := "80" ]};
     ups_Nodes := [] |}.

End Sample.

(** ** Specification-side definitions *)






(** The variable condition [(var, op, value)]. *)
Definition condition (var op value : string) : list StringOrSlice :=
  [StrOnly var; StrOnly op; StrOnly value].

(** The conditions of a match as the specification lists them. *)
Definition spec_operator (ty : option string) : string :=
  if decide (ty = Some "Exact") then "==" else "~~".

Definition spec_path_vars (m : HTTPRouteMatch) : list (list StringOrSlice) :=
  match Path m with
  | Some {| path_Type := Some ty; path_Value := Some v |} =>
    if decide (ty = "RegularExpression") then [condition "uri" "~~" v] else []
  | _ => []
  end.

Definition spec_header_var (h : HTTPHeaderMatch) : list StringOrSlice :=
  condition
    ("http_" +:+ strings_ReplaceAll (strings_ToLower (header_Name h)) "-" "_")
    (spec_operator (header_Type h)) (header_Value h).

Definition spec_query_var (q : HTTPQueryParamMatch) : list StringOrSlice :=
  condition ("arg_" +:+ strings_ToLower (query_Name q))
            (spec_operator (query_Type q)) (query_Value q).

Definition recognized (ty : option string) : Prop :=
  ty = Some "Exact" ∨ ty = Some "RegularExpression".

(** Match types outside the recognized kinds, as boolean tests. *)
Definition unknown_path_type (p : HTTPPathMatch) : bool :=
  match path_Type p with
  | Some ty =>
    negb (bool_decide (ty = "Exact") || bool_decide (ty = "PathPrefix")
          || bool_decide (ty = "RegularExpression"))
  | None => false
  end.

Definition unknown_type (ty : option string) : bool :=
  match ty with
  | Some ty =>
    negb (bool_decide (ty = "Exact") || bool_decide (ty = "RegularExpression"))
  | None => false
  end.

Definition unrecognized (m : HTTPRouteMatch) : bool :=
  match Path m with Some p => unknown_path_type p | None => false end
  || existsb (λ h, unknown_type (header_Type h)) (Headers m)
  || existsb (λ q, unknown_type (query_Type q)) (QueryParams m).

Record same_but_Vars (r r' : Route) : Prop := {
  same_ID : route_ID r' = route_ID r;
  same_Uri : Uri r' = Uri r;
  same_Hosts : Hosts r' = Hosts r;
  same_Methods : Methods r' = Methods r;
  same_Plugins : route_Plugins r' = route_Plugins r;
  same_UpstreamId : UpstreamId r' = UpstreamId r
}.

(** The value the last entry named [k] of a header list gives to [k]. *)
Fixpoint last_value (k : string) (l : list HTTPHeader) : option string :=
  match l with
  | [] => None
  | h :: l' =>
    match last_value k l' with
    | Some v => Some v
    | None => if decide (hdr_Name h = k) then Some (hdr_Value h) else None
    end
  end.

(** The header mapping of a RequestHeaderModifier as the specification
    describes it: Remove entries are empty strings, else the Set entry wins
    over the Add entry. *)
Definition spec_header_lookup (m : HTTPRequestHeaderFilter) (k : string)
    : option string :=
  if bool_decide (k ∈ Remove m) then Some ""
  else match last_value k (Set_ m) with
       | Some v => Some v
       | None => last_value k (Add m)
       end.

(** A backend reference the aggregation loop does not skip. *)
Definition resolvable (b : HTTPBackendRef) : bool :=
  bool_decide (backend_kind b = "service")
  && match backend_Port b with Some _ => true | None => false end.

(** The resolver's answer for a backend reference, when it is asked. *)
Definition ask (t : translator) (h : HTTPRoute) (b : HTTPBackendRef)
    : option (result Upstream) :=
  if resolvable b then
    match backend_Port b with
    | Some port =>
      Some (TranslateService t (backend_ns h b) (backend_Name b) ""
                             (int32 port))
    | None => None
    end
  else None.

(** The backend reference does not stop the translation. *)
Definition backend_passes (t : translator) (h : HTTPRoute)
    (b : HTTPBackendRef) : bool :=
  match ask t h b with
  | Some (Ok _) | None => true
  | Some _ => false
  end.


Definition add_upstreams (us : list Upstream) (ctx : TranslateContext)
    : TranslateContext :=
  foldl (λ c u, AddUpstream u c) ctx us.

Definition add_routes (rs : list Route) (ctx : TranslateContext)
    : TranslateContext :=
  foldl (λ c r, AddRoute r c) ctx rs.

(** The two ways a route is bound to the upstreams [us] of its rule. *)
Definition direct_binding (u : Upstream) (r : Route) : Prop :=
  UpstreamId r = ups_ID u ∧ route_Plugins r !! "traffic-split" = None.

Definition split_binding (ws : list TrafficSplitConfigRuleWeightedUpstream)
    (r : Route) : Prop :=
  UpstreamId r = ""
  ∧ route_Plugins r !! "traffic-split"
    = Some (TrafficSplitConfig [ {| WeightedUpstreams := ws |} ]).

(** The HTTPRoute [h] with the rule list [rules] in place of its own. *)
Definition with_Rules (h : HTTPRoute) (rules : list HTTPRouteRule) : HTTPRoute :=
  {| Namespace := Namespace h; Name := Name h; Hostnames := Hostnames h;
     Rules := rules |}.

(** The position text of the warnings and errors of the backend loop. *)
Definition backend_position (i j : nat) : string :=
  "Rules[" +:+ index_string i +:+ "].BackendRefs[" +:+ index_string j +:+ "]".

Definition skip_warning (i j : nat) (b : HTTPBackendRef) : string :=
  if decide (backend_kind b = "service")
  then "ignore nil port at " +:+ backend_position i j
  else "ignore non-service kind at " +:+ backend_position i j.

Section Identifiers.

Variable GenID : string → string.
Variable ComposeUpstreamName : string → string → string → Z → string → string.
Variable ComposeRouteName : string → string → string → string.
Variable Endpoint : string.
Variable h : HTTPRoute.

(** The identifier of the upstream of a backend reference: a function of
    (namespace, name, subset, port, resolution granularity). *)
Definition upstream_id (b : HTTPBackendRef) : string :=
  GenID (ComposeUpstreamName (backend_ns h b) (backend_Name b) ""
           (int32 (default 0 (backend_Port b))) Endpoint).

(** The identifier of the route of match [j] of rule [i]: a function of
    (namespace, name, rule index, match index). *)
Definition route_id (i j : nat) : string :=
  GenID (ComposeRouteName (Namespace h) (Name h)
           (index_string i +:+ "-" +:+ index_string j)).

(** The resolver's upstream [u0] of backend reference [b] once labelled and
    identified. *)
Definition labelled (b : HTTPBackendRef) (u0 : Upstream) : Upstream :=
  {| ups_ID := upstream_id b;
     ups_Name := ups_Name u0;
     ups_Labels :=
       <["meta_port" := Sprint_int (int32 (default 0 (backend_Port b)))]>
         (<["meta_backend" := TruncateString (backend_Name b) 64]>
            (<["meta_namespace" := TruncateString (backend_ns h b) 64]>
               (ups_Labels u0)));
     ups_Nodes := ups_Nodes u0 |}.

(** The weighted entry of a backend reference: its upstream identifier
    with the weight of the reference, 1 when it has none. *)
Definition spec_weighted (b : HTTPBackendRef)
    : TrafficSplitConfigRuleWeightedUpstream :=
  {| UpstreamID := upstream_id b; Weight := default 1 (backend_Weight b) |}.

(** The state of the backend loop after a reference that resolved to the
    resolver's [u0]. *)
Definition aggregate1 (b : HTTPBackendRef) (u0 : Upstream)
    (st : backend_state) : backend_state :=
  (AddUpstream (labelled b u0) st.1.1, st.1.2 ++ [labelled b u0],
   st.2 ++ [spec_weighted b]).

(** The state the backend loop ends in, when it ends without error. *)
Fixpoint aggregated (t : translator) (bs : list HTTPBackendRef)
    (st : backend_state) : backend_state :=
  match bs with
  | [] => st
  | b :: bs' =>
    aggregated t bs'
      (match ask t h b with
       | Some (Ok u0) => aggregate1 b u0 st
       | _ => st
       end)
  end.

(** The backend references of a rule that resolve, each with its
    upstream. *)
Definition resolved (t : translator) (bs : list HTTPBackendRef)
    : list (HTTPBackendRef * Upstream) :=
  omap (λ b, match ask t h b with
             | Some (Ok u0) => Some (b, labelled b u0)
             | _ => None
             end) bs.

(** The rule's plugin map once a route has been bound to the upstreams
    [us]: the traffic-split entry is there when [us] has two or more. *)
Definition bound_plugins (us : list Upstream)
    (ws : list TrafficSplitConfigRuleWeightedUpstream) (plugins : Plugins)
    : Plugins :=
  match us with
  | [] | [_] => plugins
  | _ =>
    <["traffic-split" :=
        TrafficSplitConfig [ {| WeightedUpstreams := ws |} ]]> plugins
  end.

(** The route of match [j] of rule [i], from the compiled match [r0]. *)
Definition assembled (hosts : list string) (us : list Upstream)
    (ws : list TrafficSplitConfigRuleWeightedUpstream) (plugins : Plugins)
    (i j : nat) (r0 : Route) : Route :=
  {| route_ID := route_id i j; Uri := Uri r0; Hosts := hosts;
     Vars := Vars r0; Methods := Methods r0;
     route_Plugins := bound_plugins us ws plugins;
     UpstreamId := match us with [u] => ups_ID u | _ => UpstreamId r0 end |}.

(** The matches of a rule, the default match standing in for none. *)
Definition matches_of (rule : HTTPRouteRule) : list HTTPRouteMatch :=
  match Matches rule with
  | [] => [default_match]
  | ms => ms
  end.

(** What a rule with a resolved backend adds to the context: its
    upstreams, and one route per compiled match [rs]. *)
Definition rule_upstreams (t : translator) (rule : HTTPRouteRule)
    : list Upstream :=
  map snd (resolved t (BackendRefs rule)).

Definition rule_weights (t : translator) (rule : HTTPRouteRule)
    : list TrafficSplitConfigRuleWeightedUpstream :=
  map (λ p, spec_weighted p.1) (resolved t (BackendRefs rule)).

Definition rule_routes (t : translator) (hosts : list string) (i : nat)
    (rule : HTTPRouteRule) (rs : list Route) : list Route :=
  imap (λ k r0,
          assembled hosts (rule_upstreams t rule) (rule_weights t rule)
                    (generatePluginsFromHTTPRouteFilter (Filters rule))
                    i k r0) rs.

(** The identifiers a translation of [h] hands out, from [h] alone. *)
Definition rule_route_ids (i : nat) (rule : HTTPRouteRule) : list string :=
  if existsb resolvable (BackendRefs rule)
  then map (route_id i) (seq 0 (length (matches_of rule)))
  else [].

Definition rule_upstream_ids (rule : HTTPRouteRule) : list string :=
  map upstream_id (List.filter resolvable (BackendRefs rule)).

Definition route_ids : gset string :=
  list_to_set (concat (imap rule_route_ids (Rules h))).

Definition upstream_ids : gset string :=
  list_to_set (concat (map rule_upstream_ids (Rules h))).

End Identifiers.

(** A match compiles to the route [r0]. *)
Definition compiles (m : HTTPRouteMatch) (r0 : Route) : Prop :=
  translateGatewayHTTPRouteMatch m = Ok r0.

(** The routes and upstreams of a context are stored under their own
    identifiers. *)
Definition keyed (ctx : TranslateContext) : Prop :=
  (∀ id r, Routes ctx !! id = Some r → route_ID r = id)
  ∧ (∀ id u, Upstreams ctx !! id = Some u → ups_ID u = id).

(** No pointer the match compiler dereferences is nil. *)
Definition is_set {A : Type} (o : option A) : bool :=
  match o with Some _ => true | None => false end.

Definition match_wf (m : HTTPRouteMatch) : bool :=
  match Path m with
  | Some p => is_set (path_Type p) && is_set (path_Value p)
  | None => true
  end
  && forallb (λ h, is_set (header_Type h)) (Headers m)
  && forallb (λ q, is_set (query_Type q)) (QueryParams m).

Definition route_wf (h : HTTPRoute) : bool :=
  forallb (λ rule, forallb match_wf (Matches rule)) (Rules h).

(** ** Further specification-side definitions *)

(** A match type the header and query loops accept. *)
Definition recognized_b (ty : option string) : bool :=
  match ty with
  | Some ty => bool_decide (ty = "Exact") || bool_decide (ty = "RegularExpression")
  | None => false
  end.

(** A path match the compiler gets through: its type is one of the three
    kinds and its value is set. *)
Definition compilable_path (p : HTTPPathMatch) : bool :=
  match path_Type p with
  | Some ty =>
    (bool_decide (ty = "Exact") || bool_decide (ty = "PathPrefix")
     || bool_decide (ty = "RegularExpression"))
    && is_set (path_Value p)
  | None => false
  end.

Definition compilable (m : HTTPRouteMatch) : bool :=
  match Path m with Some p => compilable_path p | None => true end
  && forallb (λ h, recognized_b (header_Type h)) (Headers m)
  && forallb (λ q, recognized_b (query_Type q)) (QueryParams m).

(** The path block of the compiler goes through. *)
Definition path_ok (m : HTTPRouteMatch) : bool :=
  match Path m with Some p => compilable_path p | None => true end.

(** The URI of a compiled match: the value for Exact, the value with the
    wildcard for PathPrefix, nothing otherwise. *)
Definition spec_uri (m : HTTPRouteMatch) : string :=
  match Path m with
  | Some {| path_Type := Some ty; path_Value := Some v |} =>
    if decide (ty = "Exact") then v
    else if decide (ty = "PathPrefix") then v +:+ "*"
    else ""
  | _ => ""
  end.

(** The route a match compiles to. *)
Definition spec_route (m : HTTPRouteMatch) : Route :=
  {| route_ID := ""; Uri := spec_uri m; Hosts := [];
     Vars := spec_path_vars m ++ map spec_header_var (Headers m)
               ++ map spec_query_var (QueryParams m);
     Methods := match Method m with Some me => [me] | None => [] end;
     route_Plugins := ∅; UpstreamId := "" |}.

(** The route the path block of the compiler leaves. *)
Definition path_route (p : HTTPPathMatch) : Route :=
  spec_route {| Path := Some p; Headers := []; QueryParams := [];
                Method := None |}.

(** A route with more variable conditions. *)
Definition add_Vars (r : Route) (vs : list (list StringOrSlice)) : Route :=
  {| route_ID := route_ID r; Uri := Uri r; Hosts := Hosts r;
     Vars := Vars r ++ vs; Methods := Methods r;
     route_Plugins := route_Plugins r; UpstreamId := UpstreamId r |}.




(** The configuration a filter brings for its own kind, if any. *)
Definition own_modifier (f : HTTPRouteFilter) : option HTTPRequestHeaderFilter :=
  if decide (filter_Type f = "RequestHeaderModifier")
  then RequestHeaderModifier f else None.

Definition own_redirect (f : HTTPRouteFilter) : option HTTPRequestRedirectFilter :=
  if decide (filter_Type f = "RequestRedirect")
  then RequestRedirect f else None.

(** The last header modifier, and the last redirect, of a filter list. *)
Fixpoint last_modifier (fs : list HTTPRouteFilter)
    : option HTTPRequestHeaderFilter :=
  match fs with
  | [] => None
  | f :: fs' =>
    match last_modifier fs' with
    | Some m => Some m
    | None => own_modifier f
    end
  end.

Fixpoint last_redirect (fs : list HTTPRouteFilter)
    : option HTTPRequestRedirectFilter :=
  match fs with
  | [] => None
  | f :: fs' =>
    match last_redirect fs' with
    | Some r => Some r
    | None => own_redirect f
    end
  end.


(** Decimal digits. *)
Definition is_digit (c : ascii) : bool :=
  (48 <=? N_of_ascii c)%N && (N_of_ascii c <=? 57)%N.

Fixpoint all_digits (s : string) : bool :=
  match s with
  | EmptyString => true
  | String c s' => is_digit c && all_digits s'
  end.

(** The rule argument of [ComposeRouteName]: [fmt.Sprintf("%d-%d", i, j)]. *)
Definition rule_string (i j : nat) : string :=
  index_string i +:+ "-" +:+ index_string j.


(** A rule the translation gets through: its backend references pass, and
    when one of them resolves, its matches (or the default match) compile. *)
Definition rule_ok (t : translator) (h : HTTPRoute) (rule : HTTPRouteRule)
    : bool :=
  forallb (backend_passes t h) (BackendRefs rule)
  && (negb (existsb resolvable (BackendRefs rule))
      || forallb compilable (matches_of rule)).

Definition translatable (t : translator) (h : HTTPRoute) : bool :=
  forallb (rule_ok t h) (Rules h).

(** A rule, and an HTTPRoute, without the backend references the
    aggregation loop skips. *)
Definition prune_rule (rule : HTTPRouteRule) : HTTPRouteRule :=
  {| Matches := Matches rule; Filters := Filters rule;
     BackendRefs := List.filter resolvable (BackendRefs rule) |}.

Definition prune (h : HTTPRoute) : HTTPRoute :=
  with_Rules h (map prune_rule (Rules h)).

(** The position text of the errors of the match loop. *)
Definition match_position (i j : nat) : string :=
  "Rules[" +:+ index_string i +:+ "].Matches[" +:+ index_string j +:+ "]".


(** The plugin names the translator writes. *)
Definition plugin_keys : gset string :=
  {[ "proxy-rewrite"; "redirect"; "traffic-split" ]}.


(** ** More sample input *)

Module Probe.

(** A resolver that knows the services "svc", "a" and "b" only. *)
Definition picky_resolver : translator :=
  {| TranslateService ns name subset port :=
       if decide (name = "svc" ∨ name = "a" ∨ name = "b")
       then Ok (Sample.upstream0 name)
       else Err (errors_New "service not found") |}.

Definition fuzzy_header : HTTPHeaderMatch :=
  {| header_Type := Some "Fuzzy"; header_Name := "X-Mode";
     header_Value := "v" |}.

Definition exact_header : HTTPHeaderMatch :=
  {| header_Type := Some HeaderMatchExact; header_Name := "X-Foo";
     header_Value := "bar" |}.

Definition fuzzy_query : HTTPQueryParamMatch :=
  {| query_Type := Some "Fuzzy"; query_Name := "Page-No";
     query_Value := "1" |}.

Definition exact_query : HTTPQueryParamMatch :=
  {| query_Type := Some QueryParamMatchExact; query_Name := "Page-No";
     query_Value := "1" |}.

(** A header of unknown type after a recognized one; a nil-typed query
    parameter after it is never looked at. *)
Definition bad_header_match : HTTPRouteMatch :=
  {| Path := Some {| path_Type := Some PathMatchExact;
                     path_Value := Some "/a" |};
     Headers := [exact_header; fuzzy_header];
     QueryParams := [ {| query_Type := None; query_Name := "q";
                         query_Value := "" |} ];
     Method := None |}.

Definition bad_query_match : HTTPRouteMatch :=
  {| Path := None; Headers := [exact_header];
     QueryParams := [exact_query; fuzzy_query]; Method := None |}.

Definition bad_path_match : HTTPRouteMatch :=
  {| Path := Some {| path_Type := Some "Bogus"; path_Value := None |};
     Headers := [fuzzy_header]; QueryParams := []; Method := None |}.

Definition rule_late_failure : HTTPRouteRule :=
  Sample.rule_of
    [Sample.path_match PathMatchExact "/a"; bad_header_match;
     Sample.path_match "Bogus" "/z"]
    [] [Sample.svc "svc" (Some 80) None].

Definition h_late : HTTPRoute :=
  Sample.route1 [Sample.rule_default; rule_late_failure].

Definition redirect_filter : HTTPRouteFilter :=
  {| filter_Type := HTTPRouteFilterRequestRedirect;
     RequestHeaderModifier := None;
     RequestRedirect :=
       Some {| redirect_Scheme := Some "https"; redirect_Hostname := None;
               redirect_Port := Some 8443; redirect_StatusCode := None |} |}.

End Probe.


(** * Properties *)

(** ** The model on concrete input *)

Example ToLower_Service : strings_ToLower "Service" = "service".
Proof. reflexivity. Qed.

Example Sprint_int_80 : Sprint_int 80 = "80" ∧ Sprint_int (-7) = "-7".
Proof. split; reflexivity. Qed.

Example header_match_x_foo :
  translateGatewayHTTPRouteMatch
    {| Path := None;
       Headers := [ {| header_Type := Some HeaderMatchExact;
                       header_Name := "X-Foo"; header_Value := "bar" |} ];
       QueryParams := []; Method := None |}
  = Ok {| route_ID := ""; Uri := ""; Hosts := [];
          Vars := [[StrOnly "http_x_foo"; StrOnly "=="; StrOnly "bar"]];
          Methods := []; route_Plugins := ∅; UpstreamId := "" |}.
Proof. reflexivity. Qed.

(** ** Strings and numbers *)



Lemma int32_id (x : Z) : - 2 ^ 31 <= x < 2 ^ 31 → int32 x = x.
Proof.
  intros Hx. unfold int32.
  rewrite Z.mod_small by lia. lia.
Qed.




(** ** Results and loops *)

Lemma bind_Ok {A B : Type} (m : result A) (k : A → result B) (b : B) :
  (a ← m; k a) = Ok b ↔ ∃ a, m = Ok a ∧ k a = Ok b.
Proof.
  destruct m as [a|e|]; simpl; split.
  - intros Hk. exists a. auto.
  - intros (a' & Ha & Hk). inversion Ha. subst. exact Hk.
  - discriminate.
  - intros (a' & Ha & _). discriminate.
  - discriminate.
  - intros (a' & Ha & _). discriminate.
Qed.

Lemma range_loop_from_app {A St : Type} (body : nat → St → A → result St)
    (l1 l2 : list A) :
  ∀ (i : nat) (s : St),
    range_loop_from body i s (l1 ++ l2)
    = (s' ← range_loop_from body i s l1;
       range_loop_from body (i + length l1) s' l2).
Proof.
  induction l1 as [|a l1 IH]; intros i s; simpl.
  - f_equal. lia.
  - destruct (body i s a) as [s1|e|]; simpl; auto.
    rewrite IH. replace (S i + length l1)%nat with (i + S (length l1))%nat by lia.
    reflexivity.
Qed.

Lemma range_loop_from_ext {A St : Type} (body1 body2 : nat → St → A → result St)
    (l : list A) :
  (∀ i s a, body1 i s a = body2 i s a) →
  ∀ (i : nat) (s : St), range_loop_from body1 i s l = range_loop_from body2 i s l.
Proof.
  intros Hext. induction l as [|a l IH]; intros i s; simpl; auto.
  rewrite Hext. destruct (body2 i s a); simpl; auto.
Qed.

(** ** The match compiler *)

Lemma same_but_Vars_refl (r : Route) : same_but_Vars r r.
Proof. split; reflexivity. Qed.

Lemma same_but_Vars_trans (r1 r2 r3 : Route) :
  same_but_Vars r1 r2 → same_but_Vars r2 r3 → same_but_Vars r1 r3.
Proof. intros [] []. split; congruence. Qed.

Lemma translate_header_Ok (r r' : Route) (h : HTTPHeaderMatch) :
  translate_header r h = Ok r' →
  Vars r' = Vars r ++ [spec_header_var h] ∧ same_but_Vars r r'
  ∧ recognized (header_Type h).
Proof.
  unfold translate_header, spec_header_var, spec_operator, recognized.
  unfold HeaderMatchExact, HeaderMatchRegularExpression.
  destruct (header_Type h) as [ty|]; simpl; [|discriminate].
  destruct (decide (ty = "Exact")) as [->|Hne1]; simpl.
  - intros Hr. inversion Hr. subst.
    split; [reflexivity | split; [split; reflexivity | left; reflexivity]].
  - destruct (decide (ty = "RegularExpression")) as [->|Hne2]; simpl;
      [|discriminate].
    intros Hr. inversion Hr. subst.
    split; [reflexivity | split; [split; reflexivity | right; reflexivity]].
Qed.

Lemma translate_query_Ok (r r' : Route) (q : HTTPQueryParamMatch) :
  translate_query r q = Ok r' →
  Vars r' = Vars r ++ [spec_query_var q] ∧ same_but_Vars r r'
  ∧ recognized (query_Type q).
Proof.
  unfold translate_query, spec_query_var, spec_operator, recognized.
  unfold QueryParamMatchExact, QueryParamMatchRegularExpression.
  destruct (query_Type q) as [ty|]; simpl; [|discriminate].
  destruct (decide (ty = "Exact")) as [->|Hne1]; simpl.
  - intros Hr. inversion Hr. subst.
    split; [reflexivity | split; [split; reflexivity | left; reflexivity]].
  - destruct (decide (ty = "RegularExpression")) as [->|Hne2]; simpl;
      [|discriminate].
    intros Hr. inversion Hr. subst.
    split; [reflexivity | split; [split; reflexivity | right; reflexivity]].
Qed.

Lemma headers_loop_Ok (hs : list HTTPHeaderMatch) :
  ∀ r r', range_loop translate_header r hs = Ok r' →
    Vars r' = Vars r ++ map spec_header_var hs ∧ same_but_Vars r r'
    ∧ Forall (λ h, recognized (header_Type h)) hs.
Proof.
  induction hs as [|h hs IH]; simpl; intros r r' Hr.
  - inversion Hr. subst. rewrite app_nil_r.
    auto using same_but_Vars_refl.
  - apply bind_Ok in Hr as (r1 & H1 & H2).
    apply translate_header_Ok in H1 as (Hv1 & Hs1 & Hrec).
    apply IH in H2 as (Hv2 & Hs2 & Hall).
    rewrite Hv2, Hv1, <- app_assoc. simpl.
    eauto using same_but_Vars_trans.
Qed.

Lemma queries_loop_Ok (qs : list HTTPQueryParamMatch) :
  ∀ r r', range_loop translate_query r qs = Ok r' →
    Vars r' = Vars r ++ map spec_query_var qs ∧ same_but_Vars r r'
    ∧ Forall (λ q, recognized (query_Type q)) qs.
Proof.
  induction qs as [|q qs IH]; simpl; intros r r' Hr.
  - inversion Hr. subst. rewrite app_nil_r.
    auto using same_but_Vars_refl.
  - apply bind_Ok in Hr as (r1 & H1 & H2).
    apply translate_query_Ok in H1 as (Hv1 & Hs1 & Hrec).
    apply IH in H2 as (Hv2 & Hs2 & Hall).
    rewrite Hv2, Hv1, <- app_assoc. simpl.
    eauto using same_but_Vars_trans.
Qed.

Lemma translate_path_Ok (r r' : Route) (p : HTTPPathMatch) :
  translate_path r p = Ok r' →
  Vars r' = Vars r ++ spec_path_vars
                        {| Path := Some p; Headers := []; QueryParams := [];
                           Method := None |}
  ∧ unknown_path_type p = false.
Proof.
  unfold translate_path, spec_path_vars, unknown_path_type.
  unfold PathMatchExact, PathMatchPathPrefix, PathMatchRegularExpression.
  destruct p as [[ty|] v]; simpl; [|discriminate].
  destruct (decide (ty = "Exact")) as [->|Hne1].
  { destruct v; simpl; [|discriminate].
    intros Hr. inversion Hr. simpl. rewrite app_nil_r. auto. }
  destruct (decide (ty = "PathPrefix")) as [->|Hne2].
  { destruct v; simpl; [|discriminate].
    intros Hr. inversion Hr. simpl. rewrite app_nil_r. auto. }
  destruct (decide (ty = "RegularExpression")) as [->|Hne3]; [|discriminate].
  destruct v; simpl; [|discriminate].
  intros Hr. inversion Hr. simpl. auto.
Qed.

Lemma recognized_known (ty : option string) :
  recognized ty → unknown_type ty = false.
Proof. intros [-> | ->]; reflexivity. Qed.

Lemma existsb_false_Forall {A : Type} (f : A → bool) (P : A → Prop)
    (l : list A) :
  (∀ a, P a → f a = false) → Forall P l → existsb f l = false.
Proof.
  intros Hf. induction 1 as [|a l Ha _ IH]; simpl; auto.
  rewrite Hf by assumption. exact IH.
Qed.

(** What a successful compilation of one match returns. *)
Lemma translate_match_Ok (m : HTTPRouteMatch) (r : Route) :
  translateGatewayHTTPRouteMatch m = Ok r →
  Vars r = spec_path_vars m ++ map spec_header_var (Headers m)
             ++ map spec_query_var (QueryParams m)
  ∧ Forall (λ h, recognized (header_Type h)) (Headers m)
  ∧ Forall (λ q, recognized (query_Type q)) (QueryParams m)
  ∧ unrecognized m = false.
Proof.
  unfold translateGatewayHTTPRouteMatch. intros Hr.
  apply bind_Ok in Hr as (r1 & Hp & Hr).
  apply bind_Ok in Hr as (r2 & Hh & Hr).
  apply bind_Ok in Hr as (r3 & Hq & Hr).
  apply headers_loop_Ok in Hh as (Hv2 & _ & Hhs).
  apply queries_loop_Ok in Hq as (Hv3 & _ & Hqs).
  assert (Vars r = Vars r3) as -> by (inversion Hr; destruct (Method m); reflexivity).
  assert (Vars r1 = spec_path_vars m
          ∧ match Path m with Some p => unknown_path_type p | None => false end
            = false) as [Hv1 Hk].
  { destruct m as [[p|] hs qs me]; simpl in *.
    - apply translate_path_Ok in Hp as [Hv Hk]. simpl in Hv. auto.
    - inversion Hp. auto. }
  split; [|split; [assumption | split; [assumption|]]].
  - rewrite Hv3, Hv2, Hv1, <- app_assoc. reflexivity.
  - unfold unrecognized. rewrite Hk. simpl.
    rewrite (existsb_false_Forall _ _ _ (λ h, recognized_known (header_Type h)) Hhs).
    rewrite (existsb_false_Forall _ _ _ (λ q, recognized_known (query_Type q)) Hqs).
    reflexivity.
Qed.

(** C6: the variable conditions of a successfully compiled match are the
    path regex condition (if the path match is RegularExpression), then one
    condition per header in declaration order (name lowercased, dashes turned
    into underscores, prefixed with http_), then one per query parameter in
    declaration order (name lowercased, prefixed with arg_); the operator is
    == for Exact and ~~ for RegularExpression, the only two kinds a
    successful compilation can have met. *)
Theorem C6_condition_order (m : HTTPRouteMatch) (r : Route) :
  translateGatewayHTTPRouteMatch m = Ok r →
  Vars r = spec_path_vars m ++ map spec_header_var (Headers m)
             ++ map spec_query_var (QueryParams m)
  ∧ Forall (λ h, recognized (header_Type h)) (Headers m)
  ∧ Forall (λ q, recognized (query_Type q)) (QueryParams m).
Proof.
  intros Hr. apply translate_match_Ok in Hr as (Hv & Hh & Hq & _). auto.
Qed.

Lemma C6_condition_order_witness :
  translateGatewayHTTPRouteMatch Sample.full_match = Ok Sample.full_route
  ∧ Vars Sample.full_route
    = [ condition "uri" "~~" "^/v[0-9]+/";
        condition "http_x_foo" "==" "bar";
        condition "http_user_agent" "~~" "curl.*";
        condition "arg_id" "==" "7" ].
Proof.
  split; [reflexivity|].
  apply (C6_condition_order Sample.full_match Sample.full_route).
  reflexivity.
Defined.

(** ** The supported-kind check *)



(** ** The filter compiler *)

Lemma foldl_insert_headers (k : string) (l : list HTTPHeader) :
  ∀ m0 : gmap string string,
    foldl (λ hs h, <[hdr_Name h := hdr_Value h]> hs) m0 l !! k
    = match last_value k l with Some v => Some v | None => m0 !! k end.
Proof.
  induction l as [|h l IH]; intros m0; simpl; [reflexivity|].
  rewrite IH. destruct (last_value k l); [reflexivity|].
  rewrite lookup_insert. case_decide; reflexivity.
Qed.

Lemma foldl_insert_remove (k : string) (l : list string) :
  ∀ m0 : gmap string string,
    foldl (λ hs x, <[x := ""]> hs) m0 l !! k
    = if bool_decide (k ∈ l) then Some "" else m0 !! k.
Proof.
  induction l as [|x l IH]; intros m0.
  - reflexivity.
  - cbn [foldl]. rewrite IH, lookup_insert.
    destruct (decide (k ∈ l)) as [Hin|Hin].
    + rewrite (bool_decide_eq_true_2 _ Hin).
      rewrite bool_decide_eq_true_2; [reflexivity|].
      apply list_elem_of_further, Hin.
    + rewrite (bool_decide_eq_false_2 _ Hin).
      destruct (decide (x = k)) as [->|Hne].
      * rewrite bool_decide_eq_true_2; [reflexivity | apply list_elem_of_here].
      * rewrite bool_decide_eq_false_2; [reflexivity|].
        intros [Heq|Hin']%elem_of_cons; [congruence | contradiction].
Qed.

Lemma header_filter_lookup (plugins : Plugins) (m : HTTPRequestHeaderFilter) :
  ∃ headers : gmap string string,
    generatePluginFromHTTPRequestHeaderFilter plugins (Some m)
    = <["proxy-rewrite" := RewriteConfig headers]> plugins
    ∧ ∀ k, headers !! k = spec_header_lookup m k.
Proof.
  eexists. split; [reflexivity|].
  intros k. unfold spec_header_lookup.
  rewrite foldl_insert_remove, !foldl_insert_headers, lookup_empty.
  destruct (last_value k (Add m)); reflexivity.
Qed.

Lemma filter_step_unknown (plugins : Plugins) (f : HTTPRouteFilter) :
  filter_Type f ≠ "RequestHeaderModifier" →
  filter_Type f ≠ "RequestRedirect" →
  filter_step plugins f = plugins.
Proof.
  intros H1 H2. unfold filter_step.
  unfold HTTPRouteFilterRequestHeaderModifier,
    HTTPRouteFilterRequestRedirect.
  rewrite !decide_False by assumption. case_decide; reflexivity.
Qed.

(** C8: a RequestHeaderModifier filter with a modifier puts a
    proxy-rewrite plugin into the plugin map whose headers mapping is the
    one got by inserting the Add entries, then the Set entries, then the
    Remove entries as empty strings: a removed name maps to the empty
    string, else the last Set entry of the name wins, else the last Add
    entry.  A filter of another kind than RequestHeaderModifier and
    RequestRedirect leaves the plugin map as it is, and a filter list of
    such kinds compiles to the empty map.  The compiler has no error
    result. *)
Theorem C8_header_modifier (plugins : Plugins) (f : HTTPRouteFilter)
    (m : HTTPRequestHeaderFilter) (fs : list HTTPRouteFilter) :
  (filter_Type f = "RequestHeaderModifier" →
   RequestHeaderModifier f = Some m →
   ∃ headers : gmap string string,
     filter_step plugins f
     = <["proxy-rewrite" := RewriteConfig headers]> plugins
     ∧ (∀ k, headers !! k = spec_header_lookup m k)
     ∧ generatePluginsFromHTTPRouteFilter (fs ++ [f]) !! "proxy-rewrite"
       = Some (RewriteConfig headers))
  ∧ (filter_Type f ≠ "RequestHeaderModifier" →
     filter_Type f ≠ "RequestRedirect" →
     filter_step plugins f = plugins)
  ∧ (Forall (λ f', filter_Type f' ≠ "RequestHeaderModifier"
                   ∧ filter_Type f' ≠ "RequestRedirect") fs →
     generatePluginsFromHTTPRouteFilter fs = ∅).
Proof.
  split; [|split].
  - intros Hty Hm.
    destruct (header_filter_lookup plugins m) as (headers & Hgen & Hlook).
    exists headers.
    assert (∀ ps, filter_step ps f
                  = <["proxy-rewrite" := RewriteConfig headers]> ps) as Hstep.
    { intros ps. unfold filter_step, HTTPRouteFilterRequestHeaderModifier.
      rewrite decide_True by exact Hty. rewrite Hm.
      unfold generatePluginFromHTTPRequestHeaderFilter in *.
      apply (f_equal (λ ps', ps' !! "proxy-rewrite")) in Hgen.
      rewrite !lookup_insert_eq in Hgen. inversion Hgen as [Heq].
      reflexivity. }
    split; [apply Hstep | split; [exact Hlook|]].
    unfold generatePluginsFromHTTPRouteFilter.
    rewrite foldl_app. simpl. rewrite Hstep. apply lookup_insert_eq.
  - apply filter_step_unknown.
  - intros Hall. unfold generatePluginsFromHTTPRouteFilter.
    generalize (∅ : Plugins).
    induction Hall as [|f' fs' [H1 H2] _ IH]; intros ps; simpl;
      [reflexivity|].
    rewrite filter_step_unknown by assumption. apply IH.
Qed.

Section Properties.

Variable GenID : string → string.
Variable ComposeUpstreamName : string → string → string → Z → string → string.
Variable ComposeRouteName : string → string → string → string.
Variable Endpoint : string.

Local Abbreviation resolve :=
  (resolve_backend GenID ComposeUpstreamName Endpoint).
Local Abbreviation backends_body :=
  (backend_step GenID ComposeUpstreamName Endpoint).
Local Abbreviation assemble := (assemble_route GenID ComposeRouteName).
Local Abbreviation matches_body := (match_step GenID ComposeRouteName).
Local Abbreviation rules_body :=
  (rule_step GenID ComposeUpstreamName ComposeRouteName Endpoint).
Local Abbreviation translate :=
  (TranslateGatewayHTTPRouteV1Alpha2 GenID ComposeUpstreamName
     ComposeRouteName Endpoint).
Local Abbreviation upstream_id_of :=
  (upstream_id GenID ComposeUpstreamName Endpoint).
Local Abbreviation route_id_of := (route_id GenID ComposeRouteName).
Local Abbreviation labelled_by :=
  (labelled GenID ComposeUpstreamName Endpoint).
Local Abbreviation resolved_by :=
  (resolved GenID ComposeUpstreamName Endpoint).
Local Abbreviation weighted_of :=
  (spec_weighted GenID ComposeUpstreamName Endpoint).
Local Abbreviation aggregate_one :=
  (aggregate1 GenID ComposeUpstreamName Endpoint).
Local Abbreviation aggregated_by :=
  (aggregated GenID ComposeUpstreamName Endpoint).
Local Abbreviation assembled_by := (assembled GenID ComposeRouteName).
Local Abbreviation rule_upstreams_of :=
  (rule_upstreams GenID ComposeUpstreamName Endpoint).
Local Abbreviation rule_weights_of :=
  (rule_weights GenID ComposeUpstreamName Endpoint).
Local Abbreviation rule_routes_of :=
  (rule_routes GenID ComposeUpstreamName ComposeRouteName Endpoint).
Local Abbreviation rule_route_ids_of :=
  (rule_route_ids GenID ComposeRouteName).
Local Abbreviation rule_upstream_ids_of :=
  (rule_upstream_ids GenID ComposeUpstreamName Endpoint).
Local Abbreviation route_ids_of :=
  (route_ids GenID ComposeRouteName).
Local Abbreviation upstream_ids_of :=
  (upstream_ids GenID ComposeUpstreamName Endpoint).


(** ** The backend loop *)

(** The loop body, by the resolver's answer. *)
Lemma resolve_cases (t : translator) (h : HTTPRoute) (i j : nat)
    (b : HTTPBackendRef) :
  resolve t h i j b
  = match ask t h b with
    | None => Ok (Skipped (skip_warning i j b))
    | Some (Ok u0) => Ok (Resolved (labelled_by h b u0))
    | Some (Err e) =>
      Err (errors_Wrap e ("failed to translate " +:+ backend_position i j))
    | Some Panic => Panic
    end.
Proof.
  unfold resolve_backend, ask, resolvable, skip_warning.
  destruct (decide (backend_kind b = "service")) as [Hk|Hk].
  - rewrite decide_False by auto.
    rewrite bool_decide_eq_true_2 by assumption. simpl.
    destruct (backend_Port b) as [port|] eqn:Hp; [|reflexivity].
    destruct (TranslateService t _ _ _ _) as [u0| |]; try reflexivity.
    unfold labelled, upstream_id. rewrite Hp. reflexivity.
  - rewrite decide_True by auto.
    rewrite bool_decide_eq_false_2 by assumption. reflexivity.
Qed.



Lemma ask_Some (t : translator) (h : HTTPRoute) (b : HTTPBackendRef)
    (r : result Upstream) :
  ask t h b = Some r ↔
  backend_kind b = "service"
  ∧ ∃ port, backend_Port b = Some port
            ∧ TranslateService t (backend_ns h b) (backend_Name b) ""
                               (int32 port) = r.
Proof.
  unfold ask, resolvable.
  destruct (decide (backend_kind b = "service")) as [Hk|Hk].
  - rewrite bool_decide_eq_true_2 by assumption. simpl.
    destruct (backend_Port b) as [port|]; split.
    + intros Hr. inversion Hr. eauto.
    + intros (_ & port' & Hp & <-). inversion Hp. reflexivity.
    + discriminate.
    + intros (_ & port' & Hp & _). discriminate.
  - rewrite bool_decide_eq_false_2 by assumption. simpl. split.
    + discriminate.
    + intros [Hk' _]. contradiction.
Qed.



Lemma ask_None (t : translator) (h : HTTPRoute) (b : HTTPBackendRef) :
  ask t h b = None ↔ resolvable b = false.
Proof.
  unfold ask, resolvable.
  destruct (bool_decide (backend_kind b = "service")); simpl;
    destruct (backend_Port b); simpl; split; congruence.
Qed.

Lemma resolved_cons (t : translator) (h : HTTPRoute) (b : HTTPBackendRef)
    (bs : list HTTPBackendRef) :
  resolved_by h t (b :: bs)
  = match ask t h b with
    | Some (Ok u0) => (b, labelled_by h b u0) :: resolved_by h t bs
    | _ => resolved_by h t bs
    end.
Proof.
  unfold resolved. simpl. destruct (ask t h b) as [[u0|e|]|]; reflexivity.
Qed.

Lemma backend_step_cases (t : translator) (h : HTTPRoute) (i j : nat)
    (st : backend_state) (b : HTTPBackendRef) :
  backends_body t h i j st b
  = match ask t h b with
    | None => Ok st
    | Some (Ok u0) => Ok (aggregate_one h b u0 st)
    | Some (Err e) =>
      Err (errors_Wrap e ("failed to translate " +:+ backend_position i j))
    | Some Panic => Panic
    end.
Proof.
  destruct st as [[ctx ups] ws].
  unfold backend_step. rewrite resolve_cases.
  destruct (ask t h b) as [[u0|e|]|]; reflexivity.
Qed.

Lemma backend_loop_Ok (t : translator) (h : HTTPRoute) (i : nat)
    (bs : list HTTPBackendRef) :
  ∀ (j : nat) (st st' : backend_state),
    range_loop_from (backends_body t h i) j st bs = Ok st' →
    st' = aggregated_by h t bs st ∧ forallb (backend_passes t h) bs = true.
Proof.
  induction bs as [|b bs IH]; intros j st st' Hl.
  - simpl in Hl. inversion Hl. auto.
  - cbn [range_loop_from] in Hl. apply bind_Ok in Hl as (st1 & Hb & Hl).
    apply IH in Hl as [-> Hall].
    rewrite backend_step_cases in Hb.
    cbn [forallb aggregated]. rewrite Hall, andb_true_r.
    unfold backend_passes.
    destruct (ask t h b) as [[u0|e|]|]; try discriminate;
      inversion Hb; auto.
Qed.

Lemma backend_loop_complete (t : translator) (h : HTTPRoute) (i : nat)
    (bs : list HTTPBackendRef) :
  forallb (backend_passes t h) bs = true →
  ∀ (j : nat) (st : backend_state),
    range_loop_from (backends_body t h i) j st bs
    = Ok (aggregated_by h t bs st).
Proof.
  induction bs as [|b bs IH]; intros Hall j st; [reflexivity|].
  cbn [forallb] in Hall. apply andb_true_iff in Hall as [Hb Hall].
  cbn [range_loop_from aggregated]. rewrite backend_step_cases.
  unfold backend_passes in Hb.
  destruct (ask t h b) as [[u0|e|]|]; try discriminate; simpl; auto.
Qed.

(** The loop only ever appends what [resolved] lists. *)
Lemma aggregated_resolved (t : translator) (h : HTTPRoute)
    (bs : list HTTPBackendRef) :
  ∀ st : backend_state,
    aggregated_by h t bs st
    = (add_upstreams (map snd (resolved_by h t bs)) st.1.1,
       st.1.2 ++ map snd (resolved_by h t bs),
       st.2 ++ map (λ p, weighted_of h p.1) (resolved_by h t bs)).
Proof.
  induction bs as [|b bs IH]; intros [[ctx ups] ws].
  - simpl. rewrite !app_nil_r. reflexivity.
  - cbn [aggregated]. rewrite IH, resolved_cons.
    destruct (ask t h b) as [[u0|e|]|]; try reflexivity.
    unfold aggregate1. simpl. rewrite <- !app_assoc. reflexivity.
Qed.

Lemma resolved_filter (t : translator) (h : HTTPRoute)
    (bs : list HTTPBackendRef) :
  forallb (backend_passes t h) bs = true →
  map fst (resolved_by h t bs) = List.filter resolvable bs.
Proof.
  induction bs as [|b bs IH]; intros Hall; [reflexivity|].
  simpl in Hall. apply andb_true_iff in Hall as [Hb Hall].
  rewrite resolved_cons. simpl. unfold backend_passes in Hb.
  destruct (ask t h b) as [[u0|e|]|] eqn:Hask; try discriminate.
  - assert (resolvable b = true) as ->.
    { destruct (resolvable b) eqn:Hr; [reflexivity|].
      apply (proj2 (ask_None t h b)) in Hr. congruence. }
    simpl. f_equal. auto.
  - apply ask_None in Hask. rewrite Hask. auto.
Qed.

Lemma resolved_elem (t : translator) (h : HTTPRoute)
    (bs : list HTTPBackendRef) (b : HTTPBackendRef) (u : Upstream) :
  (b, u) ∈ resolved_by h t bs →
  b ∈ bs ∧ ∃ u0, ask t h b = Some (Ok u0) ∧ u = labelled_by h b u0.
Proof.
  induction bs as [|b' bs IH]; [intros []%elem_of_nil|].
  rewrite resolved_cons.
  destruct (ask t h b') as [[u0|e|]|] eqn:Hask; intros Hin;
    try (apply IH in Hin as [Hin Hu]; split;
         [apply list_elem_of_further, Hin | exact Hu]).
  apply elem_of_cons in Hin as [Heq | Hin].
  - inversion Heq. subst. split; [apply list_elem_of_here | eauto].
  - apply IH in Hin as [Hin Hu]. split;
      [apply list_elem_of_further, Hin | exact Hu].
Qed.


(** The rule loop of [h] over any rule list is the translation of [h]
    with that rule list. *)
Lemma translate_with_Rules (t : translator) (h : HTTPRoute)
    (rules : list HTTPRouteRule) :
  translate t (with_Rules h rules)
  = range_loop_from (rules_body t h (collect_hosts (Hostnames h))) 0
                    DefaultEmptyTranslateContext rules.
Proof. reflexivity. Qed.

Lemma translate_split (t : translator) (h : HTTPRoute)
    (pre post : list HTTPRouteRule) (rule : HTTPRouteRule) :
  Rules h = pre ++ rule :: post →
  translate t h
  = (ctx1 ← translate t (with_Rules h pre);
     ctx2 ← rules_body t h (collect_hosts (Hostnames h)) (length pre) ctx1
                       rule;
     range_loop_from (rules_body t h (collect_hosts (Hostnames h)))
                     (S (length pre)) ctx2 post).
Proof.
  intros Hrules. rewrite translate_with_Rules.
  unfold TranslateGatewayHTTPRouteV1Alpha2.
  rewrite Hrules, range_loop_from_app. simpl.
  destruct (range_loop_from _ 0%nat _ pre) as [ctx1| |]; simpl; auto.
Qed.

(** C4: when the resolver fails on the backend reference at position
    (i, j), a reference of kind service with a port that the translation
    reaches (the rules before rule i translate, the references of rule i
    before j pass), the translation returns the resolver's error wrapped
    with "failed to translate Rules[i].BackendRefs[j]", whatever backend
    references, matches and rules come after. *)
Theorem C4_resolver_failure (t : translator) (h : HTTPRoute)
    (pre post : list HTTPRouteRule) (rule : HTTPRouteRule)
    (bpre bpost : list HTTPBackendRef) (b : HTTPBackendRef) (port : Z)
    (err : error) (ctx1 : TranslateContext) :
  Rules h = pre ++ rule :: post →
  BackendRefs rule = bpre ++ b :: bpost →
  translate t (with_Rules h pre) = Ok ctx1 →
  forallb (backend_passes t h) bpre = true →
  backend_kind b = "service" →
  backend_Port b = Some port →
  TranslateService t (backend_ns h b) (backend_Name b) "" (int32 port)
  = Err err →
  translate t h
  = Err (errors_Wrap err
           ("failed to translate Rules[" +:+ index_string (length pre)
              +:+ "].BackendRefs[" +:+ index_string (length bpre) +:+ "]")).
Proof.
  intros Hrules Hbs Hpre Hpass Hkind Hport Herr.
  rewrite (translate_split t h pre post rule Hrules), Hpre. simpl.
  assert (ask t h b = Some (Err err)) as Hask.
  { apply ask_Some. eauto. }
  unfold rule_step. rewrite Hbs.
  rewrite decide_False by (rewrite length_app; simpl; lia).
  rewrite range_loop_from_app, (backend_loop_complete t h _ bpre Hpass).
  simpl. rewrite backend_step_cases, Hask. reflexivity.
Qed.


(** ** The match loop *)

Lemma bind_upstream_eq (us : list Upstream)
    (ws : list TrafficSplitConfigRuleWeightedUpstream) (route : Route)
    (plugins : Plugins) :
  bind_upstream us ws route plugins
  = Ok ({| route_ID := route_ID route; Uri := Uri route;
           Hosts := Hosts route; Vars := Vars route;
           Methods := Methods route;
           route_Plugins := bound_plugins us ws plugins;
           UpstreamId := match us with
                         | [u] => ups_ID u
                         | _ => UpstreamId route
                         end |},
        bound_plugins us ws plugins).
Proof.
  unfold bind_upstream, bound_plugins.
  destruct us as [|u [|u' us]]; reflexivity.
Qed.

(** The shared plugin map does not change after the first binding: the
    map a route refers to reads the same at every later moment. *)
Lemma bind_upstream_stable (us : list Upstream)
    (ws : list TrafficSplitConfigRuleWeightedUpstream) (plugins : Plugins) :
  bound_plugins us ws (bound_plugins us ws plugins)
  = bound_plugins us ws plugins.
Proof.
  unfold bound_plugins. destruct us as [|u [|u' us]]; try reflexivity.
  apply insert_insert_eq.
Qed.

Lemma assemble_cases (h : HTTPRoute) (hosts : list string)
    (us : list Upstream) (ws : list TrafficSplitConfigRuleWeightedUpstream)
    (i j : nat) (plugins : Plugins) (m : HTTPRouteMatch) :
  assemble h hosts us ws i j plugins m
  = match translateGatewayHTTPRouteMatch m with
    | Ok r0 =>
      Ok (assembled_by h hosts us ws plugins i j r0,
          bound_plugins us ws plugins)
    | Err e =>
      Err (errors_Wrap e
             ("failed to translate Rules[" +:+ index_string i
                +:+ "].Matches[" +:+ index_string j +:+ "]"))
    | Panic => Panic
    end.
Proof.
  unfold assemble_route.
  destruct (translateGatewayHTTPRouteMatch m) as [r0|e|]; try reflexivity.
  rewrite bind_upstream_eq. reflexivity.
Qed.

Lemma assembled_stable (h : HTTPRoute) (hosts : list string)
    (us : list Upstream) (ws : list TrafficSplitConfigRuleWeightedUpstream)
    (plugins : Plugins) (i j : nat) (r0 : Route) :
  assembled_by h hosts us ws (bound_plugins us ws plugins) i j r0
  = assembled_by h hosts us ws plugins i j r0.
Proof. unfold assembled. rewrite bind_upstream_stable. reflexivity. Qed.

Lemma add_routes_cons (r : Route) (rs : list Route) (ctx : TranslateContext) :
  add_routes (r :: rs) ctx = add_routes rs (AddRoute r ctx).
Proof. reflexivity. Qed.

Lemma assembled_shift (h : HTTPRoute) (hosts : list string)
    (us : list Upstream) (ws : list TrafficSplitConfigRuleWeightedUpstream)
    (p : Plugins) (i j : nat) (rs : list Route) :
  imap (λ k r0,
          assembled_by h hosts us ws (bound_plugins us ws p) i (S j + k) r0)
       rs
  = imap ((λ k r0, assembled_by h hosts us ws p i (j + k) r0) ∘ S) rs.
Proof.
  apply imap_ext. intros k r _. simpl.
  rewrite assembled_stable. f_equal. lia.
Qed.

Lemma match_step_cases (h : HTTPRoute) (hosts : list string)
    (us : list Upstream) (ws : list TrafficSplitConfigRuleWeightedUpstream)
    (i j : nat) (ctx : TranslateContext) (p : Plugins)
    (m : HTTPRouteMatch) :
  matches_body h hosts us ws i j (ctx, p) m
  = match translateGatewayHTTPRouteMatch m with
    | Ok r0 =>
      Ok (AddRoute (assembled_by h hosts us ws p i j r0) ctx,
          bound_plugins us ws p)
    | Err e =>
      Err (errors_Wrap e
             ("failed to translate Rules[" +:+ index_string i
                +:+ "].Matches[" +:+ index_string j +:+ "]"))
    | Panic => Panic
    end.
Proof.
  unfold match_step. rewrite assemble_cases.
  destruct (translateGatewayHTTPRouteMatch m); reflexivity.
Qed.

Lemma match_loop_Ok (h : HTTPRoute) (hosts : list string)
    (us : list Upstream) (ws : list TrafficSplitConfigRuleWeightedUpstream)
    (i : nat) (ms : list HTTPRouteMatch) :
  ∀ (j : nat) (ctx : TranslateContext) (p : Plugins)
    (st' : TranslateContext * Plugins),
    range_loop_from (matches_body h hosts us ws i) j (ctx, p) ms = Ok st' →
    ∃ rs : list Route,
      Forall2 compiles ms rs
      ∧ st'.1
        = add_routes
            (imap (λ k r0, assembled_by h hosts us ws p i (j + k) r0) rs)
            ctx.
Proof.
  induction ms as [|m ms IH]; intros j ctx p st' Hl.
  - inversion Hl. exists []. split; [constructor | reflexivity].
  - cbn [range_loop_from] in Hl. apply bind_Ok in Hl as (st1 & Hm & Hl).
    rewrite match_step_cases in Hm.
    destruct (translateGatewayHTTPRouteMatch m) as [r0|e|] eqn:Hr0;
      try discriminate.
    inversion Hm. subst st1. clear Hm.
    apply IH in Hl as (rs & Hrs & ->).
    exists (r0 :: rs). split; [constructor; assumption|].
    cbn [imap fst].
    rewrite Nat.add_0_r, (assembled_shift h hosts us ws p i j rs).
    reflexivity.
Qed.

Lemma match_loop_complete (h : HTTPRoute) (hosts : list string)
    (us : list Upstream) (ws : list TrafficSplitConfigRuleWeightedUpstream)
    (i : nat) (ms : list HTTPRouteMatch) (rs : list Route) :
  Forall2 compiles ms rs →
  ∀ (j : nat) (ctx : TranslateContext) (p : Plugins),
    ∃ p' : Plugins,
      range_loop_from (matches_body h hosts us ws i) j (ctx, p) ms
      = Ok (add_routes
              (imap (λ k r0, assembled_by h hosts us ws p i (j + k) r0) rs)
              ctx, p').
Proof.
  induction 1 as [|m r0 ms rs Hm _ IH]; intros j ctx p.
  - exists p. reflexivity.
  - cbn [range_loop_from]. rewrite match_step_cases, Hm. simpl.
    destruct (IH (S j) (AddRoute (assembled_by h hosts us ws p i j r0) ctx)
                 (bound_plugins us ws p)) as (p' & ->).
    exists p'. cbn [imap].
    rewrite Nat.add_0_r, (assembled_shift h hosts us ws p i j rs).
    reflexivity.
Qed.

(** ** The rule loop *)

Lemma matches_of_eq (rule : HTTPRouteRule) :
  (if decide (length (Matches rule) = 0%nat) then [default_match]
   else Matches rule) = matches_of rule.
Proof. unfold matches_of. destruct (Matches rule); reflexivity. Qed.

Lemma filter_nil_existsb {A : Type} (f : A → bool) (l : list A) :
  List.filter f l = [] ↔ existsb f l = false.
Proof.
  induction l as [|a l IH]; simpl; [tauto|].
  destruct (f a); simpl; [split; discriminate | exact IH].
Qed.

Lemma resolved_nil (t : translator) (h : HTTPRoute)
    (bs : list HTTPBackendRef) :
  forallb (backend_passes t h) bs = true →
  (resolved_by h t bs = [] ↔ existsb resolvable bs = false).
Proof.
  intros Hpass. rewrite <- filter_nil_existsb, <- (resolved_filter t h bs Hpass).
  destruct (resolved_by h t bs); simpl; split; congruence.
Qed.

Lemma unresolvable_passes (t : translator) (h : HTTPRoute)
    (bs : list HTTPBackendRef) :
  existsb resolvable bs = false →
  forallb (backend_passes t h) bs = true ∧ resolved_by h t bs = [].
Proof.
  induction bs as [|b bs IH]; [simpl; auto|].
  cbn [existsb forallb]. intros [Hb Hbs]%orb_false_iff.
  apply (ask_None t h) in Hb. rewrite resolved_cons.
  unfold backend_passes at 1. rewrite Hb. simpl. auto.
Qed.

(** A rule none of whose backend references resolves is passed over. *)
Lemma rule_step_skip (t : translator) (h : HTTPRoute) (hosts : list string)
    (i : nat) (ctx : TranslateContext) (rule : HTTPRouteRule) :
  existsb resolvable (BackendRefs rule) = false →
  rules_body t h hosts i ctx rule = Ok ctx.
Proof.
  intros Hex. unfold rule_step.
  case_decide; [reflexivity|].
  destruct (unresolvable_passes t h _ Hex) as [Hpass Hnil].
  rewrite (backend_loop_complete t h i _ Hpass), aggregated_resolved, Hnil.
  reflexivity.
Qed.

Lemma rule_step_Ok (t : translator) (h : HTTPRoute) (hosts : list string)
    (i : nat) (ctx ctx' : TranslateContext) (rule : HTTPRouteRule) :
  rules_body t h hosts i ctx rule = Ok ctx' →
  forallb (backend_passes t h) (BackendRefs rule) = true
  ∧ if existsb resolvable (BackendRefs rule)
    then ∃ rs : list Route,
           Forall2 compiles (matches_of rule) rs
           ∧ ctx' = add_routes (rule_routes_of h t hosts i rule rs)
                      (add_upstreams (rule_upstreams_of h t rule) ctx)
    else ctx' = ctx.
Proof.
  intros Hr.
  destruct (existsb resolvable (BackendRefs rule)) eqn:Hex.
  2:{ rewrite (rule_step_skip t h hosts i ctx rule Hex) in Hr.
      inversion Hr. split; [|reflexivity].
      apply (unresolvable_passes t h _ Hex). }
  unfold rule_step in Hr.
  case_decide as Hlen.
  { destruct (BackendRefs rule); [discriminate Hex | discriminate Hlen]. }
  apply bind_Ok in Hr as ([[ctx1 us] ws] & Hb & Hr).
  apply backend_loop_Ok in Hb as [Hst Hpass].
  split; [exact Hpass|].
  rewrite aggregated_resolved in Hst. simpl in Hst. inversion Hst.
  subst ctx1 us ws. clear Hst.
  case_decide as Hus.
  { rewrite length_map in Hus. apply length_zero_iff_nil in Hus.
    apply (resolved_nil t h _ Hpass) in Hus. congruence. }
  rewrite matches_of_eq in Hr.
  apply bind_Ok in Hr as ([ctx2 p2] & Hm & Hr).
  apply match_loop_Ok in Hm as (rs & Hrs & Hctx).
  simpl in Hctx. subst ctx2. inversion Hr. subst ctx'.
  exists rs. split; [exact Hrs|]. reflexivity.
Qed.

Lemma rule_step_complete (t : translator) (h : HTTPRoute)
    (hosts : list string) (i : nat) (ctx : TranslateContext)
    (rule : HTTPRouteRule) (rs : list Route) :
  forallb (backend_passes t h) (BackendRefs rule) = true →
  existsb resolvable (BackendRefs rule) = true →
  Forall2 compiles (matches_of rule) rs →
  rules_body t h hosts i ctx rule
  = Ok (add_routes (rule_routes_of h t hosts i rule rs)
          (add_upstreams (rule_upstreams_of h t rule) ctx)).
Proof.
  intros Hpass Hex Hrs. unfold rule_step.
  case_decide as Hlen.
  { destruct (BackendRefs rule); [discriminate Hex | discriminate Hlen]. }
  rewrite (backend_loop_complete t h i _ Hpass), aggregated_resolved.
  simpl.
  case_decide as Hus.
  { rewrite length_map in Hus. apply length_zero_iff_nil in Hus.
    apply (resolved_nil t h _ Hpass) in Hus. congruence. }
  rewrite matches_of_eq.
  destruct (match_loop_complete h hosts
              (map snd (resolved_by h t (BackendRefs rule)))
              (map (λ p, weighted_of h p.1)
                   (resolved_by h t (BackendRefs rule)))
              i _ _ Hrs 0%nat
              (add_upstreams (map snd (resolved_by h t (BackendRefs rule)))
                             ctx)
              (generatePluginsFromHTTPRouteFilter (Filters rule)))
    as (p' & ->).
  reflexivity.
Qed.


(** ** Route assembly *)

Lemma translate_path_UpstreamId (r r' : Route) (p : HTTPPathMatch) :
  translate_path r p = Ok r' → UpstreamId r' = UpstreamId r.
Proof.
  unfold translate_path.
  destruct (path_Type p) as [ty|]; simpl; [|discriminate].
  repeat case_decide; destruct (path_Value p); simpl;
    intros Hr; inversion Hr; reflexivity.
Qed.

Lemma compiles_UpstreamId (m : HTTPRouteMatch) (r0 : Route) :
  compiles m r0 → UpstreamId r0 = "".
Proof.
  unfold compiles, translateGatewayHTTPRouteMatch. intros Hr.
  apply bind_Ok in Hr as (r1 & Hp & Hr).
  apply bind_Ok in Hr as (r2 & Hh & Hr).
  apply bind_Ok in Hr as (r3 & Hq & Hr).
  apply headers_loop_Ok in Hh as (_ & [] & _).
  apply queries_loop_Ok in Hq as (_ & [] & _).
  assert (UpstreamId r1 = "") as H1.
  { destruct (Path m) as [p|].
    - apply translate_path_UpstreamId in Hp. exact Hp.
    - inversion Hp. reflexivity. }
  inversion Hr. destruct (Method m); simpl; congruence.
Qed.

Lemma filter_step_no_split (plugins : Plugins) (f : HTTPRouteFilter) :
  filter_step plugins f !! "traffic-split" = plugins !! "traffic-split".
Proof.
  unfold filter_step, generatePluginFromHTTPRequestHeaderFilter,
    generatePluginFromHTTPRequestRedirectFilter.
  repeat case_decide; try reflexivity.
  - destruct (RequestHeaderModifier f); [|reflexivity].
    apply lookup_insert_ne. discriminate.
  - destruct (RequestRedirect f); [|reflexivity].
    apply lookup_insert_ne. discriminate.
Qed.

(** The filter compiler never writes the traffic-split entry. *)
Lemma filters_no_split (fs : list HTTPRouteFilter) :
  generatePluginsFromHTTPRouteFilter fs !! "traffic-split" = None.
Proof.
  unfold generatePluginsFromHTTPRouteFilter.
  assert (∀ ps : Plugins,
             foldl filter_step ps fs !! "traffic-split"
             = ps !! "traffic-split") as Hfold.
  { induction fs as [|f fs IH]; intros ps; simpl; [reflexivity|].
    rewrite IH. apply filter_step_no_split. }
  rewrite Hfold. apply lookup_empty.
Qed.

Lemma assembled_direct (h : HTTPRoute) (hosts : list string) (u : Upstream)
    (ws : list TrafficSplitConfigRuleWeightedUpstream)
    (fs : list HTTPRouteFilter) (i j : nat) (r0 : Route) :
  direct_binding u
    (assembled_by h hosts [u] ws (generatePluginsFromHTTPRouteFilter fs)
                  i j r0).
Proof. split; [reflexivity | apply filters_no_split]. Qed.

Lemma assembled_split (h : HTTPRoute) (hosts : list string)
    (u u' : Upstream) (us : list Upstream)
    (ws : list TrafficSplitConfigRuleWeightedUpstream) (plugins : Plugins)
    (i j : nat) (m : HTTPRouteMatch) (r0 : Route) :
  compiles m r0 →
  split_binding ws (assembled_by h hosts (u :: u' :: us) ws plugins i j r0).
Proof.
  intros Hr0. split; simpl.
  - apply (compiles_UpstreamId m r0 Hr0).
  - apply lookup_insert_eq.
Qed.

Lemma Forall_imap_Forall2 {A B : Type} (R : A → B → Prop) (P : B → Prop)
    (g : nat → B → B) (l : list A) (k : list B) :
  Forall2 R l k →
  (∀ j a b, R a b → P (g j b)) →
  Forall P (imap g k).
Proof.
  intros HR. revert g. induction HR as [|a b l k Hab _ IH]; intros g Hg.
  - constructor.
  - simpl. constructor; [eapply Hg, Hab|].
    apply IH. intros j a' b' Hab'. simpl. eapply Hg, Hab'.
Qed.

Lemma resolved_ID (t : translator) (h : HTTPRoute)
    (bs : list HTTPBackendRef) :
  Forall (λ p, ups_ID p.2 = upstream_id_of h p.1) (resolved_by h t bs).
Proof.
  apply Forall_forall. intros [b u] Hin.
  apply resolved_elem in Hin as (_ & u0 & _ & ->). reflexivity.
Qed.

(** C3: in a rule with a resolved backend, every route the rule adds is
    bound in one of two ways.  When one upstream resolved, the route's
    UpstreamId is that upstream's identifier and its plugin map has no
    traffic-split entry; when more resolved, its UpstreamId is unset and
    the traffic-split entry holds one split rule, listing per resolved
    backend the upstream identifier with the weight of the reference,
    1 when it gives none. *)
Theorem C3_upstream_binding (t : translator) (h : HTTPRoute)
    (hosts : list string) (i : nat) (ctx ctx' : TranslateContext)
    (rule : HTTPRouteRule) :
  rules_body t h hosts i ctx rule = Ok ctx' →
  existsb resolvable (BackendRefs rule) = true →
  ∃ rs : list Route,
    ctx' = add_routes (rule_routes_of h t hosts i rule rs)
             (add_upstreams (rule_upstreams_of h t rule) ctx)
    ∧ length rs = length (matches_of rule)
    ∧ rule_weights_of h t rule
      = map (λ p, {| UpstreamID := ups_ID p.2;
                     Weight := default 1 (backend_Weight p.1) |})
            (resolved_by h t (BackendRefs rule))
    ∧ match rule_upstreams_of h t rule with
      | [] => False
      | [u] => Forall (direct_binding u) (rule_routes_of h t hosts i rule rs)
      | _ =>
        Forall (split_binding (rule_weights_of h t rule))
               (rule_routes_of h t hosts i rule rs)
      end.
Proof.
  intros Hr Hex.
  apply rule_step_Ok in Hr as [Hpass Hr]. rewrite Hex in Hr.
  destruct Hr as (rs & Hrs & ->).
  exists rs. split; [reflexivity|].
  split; [symmetry; apply (Forall2_length _ _ _ Hrs)|].
  split.
  { unfold rule_weights. apply Forall_fmap_ext_1.
    eapply Forall_impl; [apply resolved_ID|].
    intros [b u] Hid. simpl in *. unfold spec_weighted. congruence. }
  unfold rule_routes.
  destruct (rule_upstreams_of h t rule) as [|u [|u' us]] eqn:Hus.
  - unfold rule_upstreams in Hus. apply fmap_nil_inv in Hus.
    apply (resolved_nil t h _ Hpass) in Hus. congruence.
  - eapply Forall_imap_Forall2; [exact Hrs|].
    intros j m r0 _. apply assembled_direct.
  - eapply Forall_imap_Forall2; [exact Hrs|].
    intros j m r0 Hm. eapply assembled_split, Hm.
Qed.


Lemma collect_hosts_eq (hostnames : list string) :
  collect_hosts hostnames = hostnames.
Proof.
  unfold collect_hosts.
  assert (∀ acc : list string,
             foldl (λ hosts hostname, hosts ++ [hostname]) acc hostnames
             = acc ++ hostnames) as Hfold.
  { induction hostnames as [|x l IH]; intros acc; simpl.
    - rewrite app_nil_r. reflexivity.
    - rewrite IH, <- app_assoc. reflexivity. }
  apply Hfold.
Qed.

(** C7: a rule without matches and with a resolved backend is translated
    with the default match PathPrefix "/" and adds one route to the
    context: its URI is "/*", its hosts are the hostnames of the
    HTTPRoute, it has no variable condition and no method, and when one
    upstream resolved it is bound to it directly, without a traffic-split
    entry. *)
Theorem C7_default_match (t : translator) (h : HTTPRoute) (i : nat)
    (ctx : TranslateContext) (rule : HTTPRouteRule) :
  Matches rule = [] →
  existsb resolvable (BackendRefs rule) = true →
  forallb (backend_passes t h) (BackendRefs rule) = true →
  ∃ r : Route,
    rules_body t h (collect_hosts (Hostnames h)) i ctx rule
    = Ok (AddRoute r (add_upstreams (rule_upstreams_of h t rule) ctx))
    ∧ route_ID r = route_id_of h i 0
    ∧ Uri r = "/*"
    ∧ Hosts r = Hostnames h
    ∧ Vars r = []
    ∧ Methods r = []
    ∧ (∀ u, rule_upstreams_of h t rule = [u] → direct_binding u r).
Proof.
  intros Hm Hex Hpass.
  assert (Forall2 compiles (matches_of rule) [set_Uri NewDefaultRoute "/*"])
    as Hrs.
  { unfold matches_of. rewrite Hm. constructor; [reflexivity | constructor]. }
  rewrite (rule_step_complete t h _ i ctx rule _ Hpass Hex Hrs).
  eexists. split; [reflexivity|].
  simpl. rewrite collect_hosts_eq.
  repeat (split; [reflexivity|]).
  intros u Hu. rewrite Hu. apply assembled_direct.
Qed.


(** ** The context *)

Lemma add_upstreams_Routes (us : list Upstream) :
  ∀ ctx, Routes (add_upstreams us ctx) = Routes ctx.
Proof.
  unfold add_upstreams.
  induction us as [|u us IH]; intros ctx; simpl; [reflexivity|].
  rewrite IH. reflexivity.
Qed.

Lemma add_routes_Upstreams (rs : list Route) :
  ∀ ctx, Upstreams (add_routes rs ctx) = Upstreams ctx.
Proof.
  unfold add_routes.
  induction rs as [|r rs IH]; intros ctx; simpl; [reflexivity|].
  rewrite IH. reflexivity.
Qed.

Lemma add_routes_dom (rs : list Route) :
  ∀ ctx, dom (Routes (add_routes rs ctx))
         = dom (Routes ctx) ∪ list_to_set (map route_ID rs).
Proof.
  unfold add_routes.
  induction rs as [|r rs IH]; intros ctx; simpl.
  - rewrite union_empty_r_L. reflexivity.
  - rewrite IH. simpl. rewrite dom_insert_L.
    rewrite (union_comm_L {[route_ID r]} (dom (Routes ctx))).
    rewrite union_assoc_L. reflexivity.
Qed.

Lemma add_upstreams_dom (us : list Upstream) :
  ∀ ctx, dom (Upstreams (add_upstreams us ctx))
         = dom (Upstreams ctx) ∪ list_to_set (map ups_ID us).
Proof.
  unfold add_upstreams.
  induction us as [|u us IH]; intros ctx; simpl.
  - rewrite union_empty_r_L. reflexivity.
  - rewrite IH. simpl. rewrite dom_insert_L.
    rewrite (union_comm_L {[ups_ID u]} (dom (Upstreams ctx))).
    rewrite union_assoc_L. reflexivity.
Qed.

Lemma add_routes_lookup (rs : list Route) :
  ∀ ctx id r,
    Routes (add_routes rs ctx) !! id = Some r →
    Routes ctx !! id = Some r ∨ (r ∈ rs ∧ route_ID r = id).
Proof.
  unfold add_routes.
  induction rs as [|r' rs IH]; intros ctx id r Hl; simpl in Hl; [auto|].
  apply IH in Hl as [Hl | [Hin Hid]].
  - simpl in Hl. rewrite lookup_insert in Hl.
    case_decide as Heq.
    + inversion Hl. subst. right. split; [apply list_elem_of_here | auto].
    + auto.
  - right. split; [apply list_elem_of_further, Hin | exact Hid].
Qed.

Lemma add_upstreams_lookup (us : list Upstream) :
  ∀ ctx id u,
    Upstreams (add_upstreams us ctx) !! id = Some u →
    Upstreams ctx !! id = Some u ∨ (u ∈ us ∧ ups_ID u = id).
Proof.
  unfold add_upstreams.
  induction us as [|u' us IH]; intros ctx id u Hl; simpl in Hl; [auto|].
  apply IH in Hl as [Hl | [Hin Hid]].
  - simpl in Hl. rewrite lookup_insert in Hl.
    case_decide as Heq.
    + inversion Hl. subst. right. split; [apply list_elem_of_here | auto].
    + auto.
  - right. split; [apply list_elem_of_further, Hin | exact Hid].
Qed.

Lemma assembled_IDs (h : HTTPRoute) (hosts : list string)
    (us : list Upstream) (ws : list TrafficSplitConfigRuleWeightedUpstream)
    (p : Plugins) (i : nat) (rs : list Route) :
  ∀ j, map route_ID
         (imap (λ k r0, assembled_by h hosts us ws p i (j + k) r0) rs)
       = map (route_id_of h i) (seq j (length rs)).
Proof.
  induction rs as [|r0 rs IH]; intros j; simpl; [reflexivity|].
  rewrite Nat.add_0_r. f_equal.
  rewrite <- IH. f_equal. apply imap_ext.
  intros k r _. simpl. f_equal. lia.
Qed.

Lemma rule_routes_IDs (t : translator) (h : HTTPRoute)
    (hosts : list string) (i : nat) (rule : HTTPRouteRule)
    (rs : list Route) :
  map route_ID (rule_routes_of h t hosts i rule rs)
  = map (route_id_of h i) (seq 0 (length rs)).
Proof. unfold rule_routes. apply (assembled_IDs h hosts _ _ _ i rs 0). Qed.

Lemma rule_upstreams_IDs (t : translator) (h : HTTPRoute)
    (rule : HTTPRouteRule) :
  forallb (backend_passes t h) (BackendRefs rule) = true →
  map ups_ID (rule_upstreams_of h t rule) = rule_upstream_ids_of h rule.
Proof.
  intros Hpass. unfold rule_upstreams, rule_upstream_ids.
  rewrite <- (resolved_filter t h _ Hpass), !map_map.
  apply Forall_fmap_ext_1, resolved_ID.
Qed.

(** The identifiers of what one rule adds depend on the HTTPRoute alone. *)
Lemma rule_step_dom (t : translator) (h : HTTPRoute) (hosts : list string)
    (i : nat) (ctx ctx' : TranslateContext) (rule : HTTPRouteRule) :
  rules_body t h hosts i ctx rule = Ok ctx' →
  dom (Routes ctx')
  = dom (Routes ctx) ∪ list_to_set (rule_route_ids_of h i rule)
  ∧ dom (Upstreams ctx')
    = dom (Upstreams ctx) ∪ list_to_set (rule_upstream_ids_of h rule).
Proof.
  intros Hr. apply rule_step_Ok in Hr as [Hpass Hr].
  unfold rule_route_ids.
  rewrite <- (rule_upstreams_IDs t h rule Hpass).
  destruct (existsb resolvable (BackendRefs rule)) eqn:Hex.
  - destruct Hr as (rs & Hrs & ->).
    rewrite add_routes_dom, add_routes_Upstreams, add_upstreams_Routes,
      add_upstreams_dom, rule_routes_IDs.
    rewrite (Forall2_length _ _ _ Hrs). auto.
  - subst ctx'.
    destruct (unresolvable_passes t h _ Hex) as [_ Hnil].
    unfold rule_upstreams. rewrite Hnil. simpl.
    rewrite !union_empty_r_L. auto.
Qed.


(** ** The whole translation *)


Lemma rules_loop_dom (t : translator) (h : HTTPRoute) (hosts : list string)
    (rules : list HTTPRouteRule) :
  ∀ (i0 : nat) (ctx ctx' : TranslateContext),
    range_loop_from (rules_body t h hosts) i0 ctx rules = Ok ctx' →
    dom (Routes ctx')
    = dom (Routes ctx)
        ∪ list_to_set
            (concat (imap (λ k, rule_route_ids_of h (i0 + k)) rules))
    ∧ dom (Upstreams ctx')
      = dom (Upstreams ctx)
          ∪ list_to_set (concat (map (rule_upstream_ids_of h) rules)).
Proof.
  induction rules as [|rule rules IH]; intros i0 ctx ctx' Hl.
  - inversion Hl. simpl. rewrite !union_empty_r_L. auto.
  - cbn [range_loop_from] in Hl. apply bind_Ok in Hl as (ctx1 & H0 & Hl).
    apply rule_step_dom in H0 as [Hr1 Hu1].
    apply IH in Hl as [Hr2 Hu2].
    rewrite Hr2, Hu2, Hr1, Hu1. simpl.
    rewrite !list_to_set_app_L, !union_assoc_L, Nat.add_0_r.
    split; [|reflexivity].
    do 3 f_equal. apply imap_ext. intros k r _. simpl. f_equal. lia.
Qed.


Lemma rule_step_keyed (t : translator) (h : HTTPRoute) (hosts : list string)
    (i : nat) (ctx ctx' : TranslateContext) (rule : HTTPRouteRule) :
  rules_body t h hosts i ctx rule = Ok ctx' → keyed ctx → keyed ctx'.
Proof.
  intros Hr [Hkr Hku]. apply rule_step_Ok in Hr as [_ Hr].
  destruct (existsb resolvable (BackendRefs rule));
    [|subst; split; assumption].
  destruct Hr as (rs & _ & ->). split.
  - intros id r [Hl | [_ Hid]]%add_routes_lookup; [|exact Hid].
    rewrite add_upstreams_Routes in Hl. auto.
  - intros id u Hl. rewrite add_routes_Upstreams in Hl.
    apply add_upstreams_lookup in Hl as [Hl | [_ Hid]]; auto.
Qed.

Lemma rules_loop_keyed (t : translator) (h : HTTPRoute)
    (hosts : list string) (rules : list HTTPRouteRule) :
  ∀ (i0 : nat) (ctx ctx' : TranslateContext),
    range_loop_from (rules_body t h hosts) i0 ctx rules = Ok ctx' →
    keyed ctx → keyed ctx'.
Proof.
  induction rules as [|rule rules IH]; intros i0 ctx ctx' Hl Hk.
  - inversion Hl. subst. exact Hk.
  - cbn [range_loop_from] in Hl. apply bind_Ok in Hl as (ctx1 & H0 & Hl).
    eapply IH; [exact Hl|]. eapply rule_step_keyed; eauto.
Qed.

Lemma keyed_empty : keyed DefaultEmptyTranslateContext.
Proof. split; intros id x Hl; simpl in Hl; rewrite lookup_empty in Hl; discriminate. Qed.

(** The translation depends on the resolver through its answers only. *)
Lemma resolve_ext (t1 t2 : translator) (h : HTTPRoute) (i j : nat)
    (b : HTTPBackendRef) :
  (∀ ns name subset port,
      TranslateService t1 ns name subset port
      = TranslateService t2 ns name subset port) →
  resolve t1 h i j b = resolve t2 h i j b.
Proof.
  intros Hext. unfold resolve_backend.
  case_decide; [reflexivity|].
  destruct (backend_Port b); [|reflexivity].
  rewrite Hext. reflexivity.
Qed.

Lemma translate_ext (t1 t2 : translator) (h : HTTPRoute) :
  (∀ ns name subset port,
      TranslateService t1 ns name subset port
      = TranslateService t2 ns name subset port) →
  translate t1 h = translate t2 h.
Proof.
  intros Hext. unfold TranslateGatewayHTTPRouteV1Alpha2.
  apply range_loop_from_ext. intros i ctx rule.
  unfold rule_step. case_decide; [reflexivity|].
  rewrite (range_loop_from_ext (backends_body t1 h i) (backends_body t2 h i));
    [reflexivity|].
  intros j [[c us] ws] b. unfold backend_step.
  rewrite (resolve_ext t1 t2 h i j b Hext). reflexivity.
Qed.

Lemma translate_dom (t : translator) (h : HTTPRoute)
    (ctx : TranslateContext) :
  translate t h = Ok ctx →
  dom (Routes ctx) = route_ids_of h
  ∧ dom (Upstreams ctx) = upstream_ids_of h ∧ keyed ctx.
Proof.
  intros Ht. unfold TranslateGatewayHTTPRouteV1Alpha2 in Ht.
  pose proof (rules_loop_keyed _ _ _ _ _ _ _ Ht keyed_empty) as Hk.
  apply rules_loop_dom in Ht as [Hr Hu]. simpl in Hr, Hu.
  rewrite dom_empty_L, union_empty_l_L in Hr.
  rewrite dom_empty_L, union_empty_l_L in Hu.
  split; [|split; assumption].
  rewrite Hr. unfold route_ids. reflexivity.
Qed.

(** C1: the identifiers a translation hands out are functions of the
    composite keys: a route's is GenID of the route name composed of the
    HTTPRoute's namespace and name and the rule and match index, an
    upstream's is GenID of the upstream name composed of namespace,
    backend name, subset, port and resolution granularity.  Two
    translations of the same HTTPRoute that both succeed yield the same
    sets of route and upstream identifiers, whatever the resolver answered,
    every object stored under its own identifier; and when the resolver
    answers the same, the two contexts are equal. *)
Theorem C1_deterministic_identifiers (t1 t2 : translator) (h : HTTPRoute)
    (ctx1 ctx2 : TranslateContext) :
  translate t1 h = Ok ctx1 →
  translate t2 h = Ok ctx2 →
  dom (Routes ctx1) = route_ids_of h
  ∧ dom (Routes ctx2) = route_ids_of h
  ∧ dom (Upstreams ctx1) = upstream_ids_of h
  ∧ dom (Upstreams ctx2) = upstream_ids_of h
  ∧ keyed ctx1 ∧ keyed ctx2
  ∧ ((∀ ns name subset port,
         TranslateService t1 ns name subset port
         = TranslateService t2 ns name subset port) →
     ctx1 = ctx2).
Proof.
  intros H1 H2.
  destruct (translate_dom t1 h ctx1 H1) as (Hr1 & Hu1 & Hk1).
  destruct (translate_dom t2 h ctx2 H2) as (Hr2 & Hu2 & Hk2).
  repeat (split; [assumption|]).
  intros Hext. rewrite (translate_ext t1 t2 h Hext) in H1. congruence.
Qed.






(** ** No panic on input without nil pointers *)

Lemma translate_header_no_panic (r : Route) (h : HTTPHeaderMatch) :
  is_set (header_Type h) = true → translate_header r h ≠ Panic.
Proof.
  unfold translate_header.
  destruct (header_Type h) as [ty|]; [|discriminate]. simpl.
  repeat case_decide; discriminate.
Qed.

Lemma translate_query_no_panic (r : Route) (q : HTTPQueryParamMatch) :
  is_set (query_Type q) = true → translate_query r q ≠ Panic.
Proof.
  unfold translate_query.
  destruct (query_Type q) as [ty|]; [|discriminate]. simpl.
  repeat case_decide; discriminate.
Qed.

Lemma headers_loop_no_panic (hs : list HTTPHeaderMatch) :
  forallb (λ h, is_set (header_Type h)) hs = true →
  ∀ r, range_loop translate_header r hs ≠ Panic.
Proof.
  induction hs as [|h hs IH]; intros Hwf r; [discriminate|].
  cbn [forallb] in Hwf. apply andb_true_iff in Hwf as [Hh Hwf].
  cbn [range_loop].
  pose proof (translate_header_no_panic r h Hh) as Hnp.
  destruct (translate_header r h) as [r1|e|];
    [|discriminate|contradiction].
  simpl. apply IH, Hwf.
Qed.

Lemma queries_loop_no_panic (qs : list HTTPQueryParamMatch) :
  forallb (λ q, is_set (query_Type q)) qs = true →
  ∀ r, range_loop translate_query r qs ≠ Panic.
Proof.
  induction qs as [|q qs IH]; intros Hwf r; [discriminate|].
  cbn [forallb] in Hwf. apply andb_true_iff in Hwf as [Hq Hwf].
  cbn [range_loop].
  pose proof (translate_query_no_panic r q Hq) as Hnp.
  destruct (translate_query r q) as [r1|e|];
    [|discriminate|contradiction].
  simpl. apply IH, Hwf.
Qed.

Lemma translate_path_no_panic (r : Route) (p : HTTPPathMatch) :
  is_set (path_Type p) && is_set (path_Value p) = true →
  translate_path r p ≠ Panic.
Proof.
  unfold translate_path.
  destruct (path_Type p) as [ty|]; [|discriminate].
  destruct (path_Value p) as [v|]; [|discriminate]. simpl.
  repeat case_decide; discriminate.
Qed.

Lemma translate_match_no_panic (m : HTTPRouteMatch) :
  match_wf m = true → translateGatewayHTTPRouteMatch m ≠ Panic.
Proof.
  unfold match_wf, translateGatewayHTTPRouteMatch.
  intros [[Hp Hh]%andb_true_iff Hq]%andb_true_iff.
  assert (∀ r1 : Route,
             (route ← range_loop translate_header r1 (Headers m);
              route ← range_loop translate_query route (QueryParams m);
              Ok (match Method m with
                  | Some me => set_Methods route [me]
                  | None => route
                  end)) ≠ Panic) as Htail.
  { intros r1.
    pose proof (headers_loop_no_panic _ Hh r1) as Hhs.
    destruct (range_loop translate_header r1 (Headers m)) as [r2|e|];
      [|discriminate|contradiction]. simpl.
    pose proof (queries_loop_no_panic _ Hq r2) as Hqs.
    destruct (range_loop translate_query r2 (QueryParams m)) as [r3|e|];
      [discriminate|discriminate|contradiction]. }
  destruct (Path m) as [p|]; [|apply Htail].
  pose proof (translate_path_no_panic NewDefaultRoute p Hp) as Hnp.
  destruct (translate_path NewDefaultRoute p) as [r1|e|];
    [apply Htail|discriminate|contradiction].
Qed.

Lemma match_loop_no_panic (h : HTTPRoute) (hosts : list string)
    (us : list Upstream) (ws : list TrafficSplitConfigRuleWeightedUpstream)
    (i : nat) (ms : list HTTPRouteMatch) :
  forallb match_wf ms = true →
  ∀ j st, range_loop_from (matches_body h hosts us ws i) j st ms ≠ Panic.
Proof.
  induction ms as [|m ms IH]; intros Hwf j [ctx p]; [discriminate|].
  cbn [forallb] in Hwf. apply andb_true_iff in Hwf as [Hm Hwf].
  cbn [range_loop_from]. rewrite match_step_cases.
  pose proof (translate_match_no_panic m Hm) as Hnp.
  destruct (translateGatewayHTTPRouteMatch m) as [r0|e|];
    [|discriminate|contradiction].
  simpl. apply IH, Hwf.
Qed.

Lemma backend_loop_no_panic (t : translator) (h : HTTPRoute) (i : nat)
    (bs : list HTTPBackendRef) :
  (∀ ns name subset port, TranslateService t ns name subset port ≠ Panic) →
  ∀ j st, range_loop_from (backends_body t h i) j st bs ≠ Panic.
Proof.
  intros Ht. induction bs as [|b bs IH]; intros j st; [discriminate|].
  cbn [range_loop_from]. rewrite backend_step_cases.
  destruct (ask t h b) as [[u0|e|]|] eqn:Hask; simpl;
    try discriminate; try apply IH.
  apply ask_Some in Hask as (_ & port & _ & Hts). apply Ht in Hts as [].
Qed.

Lemma rule_step_no_panic (t : translator) (h : HTTPRoute)
    (hosts : list string) (i : nat) (ctx : TranslateContext)
    (rule : HTTPRouteRule) :
  (∀ ns name subset port, TranslateService t ns name subset port ≠ Panic) →
  forallb match_wf (Matches rule) = true →
  rules_body t h hosts i ctx rule ≠ Panic.
Proof.
  intros Ht Hwf. unfold rule_step.
  case_decide; [discriminate|].
  pose proof (backend_loop_no_panic t h i (BackendRefs rule) Ht 0%nat
                (ctx, [], [])) as Hb.
  destruct (range_loop_from _ 0%nat _ (BackendRefs rule))
    as [[[ctx1 us] ws]|e|]; [|discriminate|contradiction].
  simpl. case_decide; [discriminate|].
  rewrite matches_of_eq.
  assert (forallb match_wf (matches_of rule) = true) as Hwf'.
  { unfold matches_of. destruct (Matches rule); [reflexivity | exact Hwf]. }
  pose proof (match_loop_no_panic h hosts us ws i _ Hwf' 0%nat
                (ctx1, generatePluginsFromHTTPRouteFilter (Filters rule)))
    as Hm.
  destruct (range_loop_from _ 0%nat _ (matches_of rule)) as [[ctx2 p]|e|];
    [discriminate|discriminate|contradiction].
Qed.

Lemma translate_no_panic (t : translator) (h : HTTPRoute) :
  (∀ ns name subset port, TranslateService t ns name subset port ≠ Panic) →
  route_wf h = true →
  translate t h ≠ Panic.
Proof.
  intros Ht. unfold route_wf, TranslateGatewayHTTPRouteV1Alpha2.
  generalize DefaultEmptyTranslateContext, 0%nat.
  induction (Rules h) as [|rule rules IH]; intros ctx i0 Hwf;
    [discriminate|].
  cbn [forallb] in Hwf. apply andb_true_iff in Hwf as [Hr Hwf].
  cbn [range_loop_from].
  pose proof (rule_step_no_panic t h (collect_hosts (Hostnames h)) i0 ctx
                rule Ht Hr) as Hnp.
  destruct (rule_step _ _ _ _ _ _ _ _ _ rule) as [ctx1|e|];
    [|discriminate|contradiction].
  simpl. apply IH, Hwf.
Qed.



End Properties.

(** * The theorems on concrete input *)

(** The no-match default of the specification: one rule, no match, the
    backend service "svc" on port 80, hostname "foo.com". *)
Example no_match_default :
  Sample.translate Sample.resolver (Sample.route1 [Sample.rule_default])
  = Ok (AddRoute (Sample.route_default "id:default_r_0-0")
          (AddUpstream Sample.upstream_svc DefaultEmptyTranslateContext)).
Proof. vm_compute. reflexivity. Qed.

(** A rule whose only backend has no port adds nothing; the rule after it
    still gets its route. *)
Example skip_empty_rule :
  Sample.translate Sample.resolver Sample.h_skip
  = Ok (AddRoute (Sample.route_default "id:default_r_1-0")
          (AddUpstream Sample.upstream_svc DefaultEmptyTranslateContext)).
Proof. vm_compute. reflexivity. Qed.

(** An unknown path match type in a rule with a resolved backend. *)
Example abort_on_bad_match :
  Sample.translate Sample.resolver Sample.h_bogus
  = Err (errors_Wrap (errors_New "unknown path match type Bogus")
           "failed to translate Rules[1].Matches[0]").
Proof. vm_compute. reflexivity. Qed.

Lemma resolver_no_panic (ns name subset : string) (port : Z) :
  TranslateService Sample.resolver ns name subset port ≠ Panic.
Proof. simpl. case_decide; discriminate. Qed.

Lemma C1_deterministic_identifiers_witness :
  Sample.translate Sample.resolver Sample.h_two
  = Ok (Sample.the_ctx (Sample.translate Sample.resolver Sample.h_two))
  ∧ Sample.translate Sample.labelling_resolver Sample.h_two
    = Ok (Sample.the_ctx
            (Sample.translate Sample.labelling_resolver Sample.h_two))
  ∧ dom (Routes (Sample.the_ctx
                   (Sample.translate Sample.resolver Sample.h_two)))
    = dom (Routes (Sample.the_ctx
                     (Sample.translate Sample.labelling_resolver
                                       Sample.h_two)))
  ∧ dom (Upstreams (Sample.the_ctx
                      (Sample.translate Sample.resolver Sample.h_two)))
    = dom (Upstreams (Sample.the_ctx
                        (Sample.translate Sample.labelling_resolver
                                          Sample.h_two))).
Proof.
  assert (Sample.translate Sample.resolver Sample.h_two
          = Ok (Sample.the_ctx
                  (Sample.translate Sample.resolver Sample.h_two))) as H1
    by (vm_compute; reflexivity).
  assert (Sample.translate Sample.labelling_resolver Sample.h_two
          = Ok (Sample.the_ctx
                  (Sample.translate Sample.labelling_resolver Sample.h_two)))
    as H2 by (vm_compute; reflexivity).
  destruct (C1_deterministic_identifiers
              Sample.GenID Sample.ComposeUpstreamName Sample.ComposeRouteName
              Sample.Endpoint Sample.resolver Sample.labelling_resolver
              Sample.h_two _ _ H1 H2) as (Hr1 & Hr2 & Hu1 & Hu2 & _).
  split; [exact H1|]. split; [exact H2|].
  split; [exact (eq_trans Hr1 (eq_sym Hr2)) | exact (eq_trans Hu1 (eq_sym Hu2))].
Defined.



(** The weighted split of the specification: two backends, weights 1 and 3. *)
Example weighted_split :
  ∃ ctx, Sample.step Sample.resolver Sample.h_two ["foo.com"] 1
                     DefaultEmptyTranslateContext Sample.rule_split = Ok ctx
    ∧ (UpstreamId <$> Routes ctx !! "id:default_r_1-0") = Some ""
    ∧ (route_Plugins <$> Routes ctx !! "id:default_r_1-0")
      = Some {[ "traffic-split" :=
                  TrafficSplitConfig
                    [ {| WeightedUpstreams :=
                           [ {| UpstreamID := "id:default_a_80";
                                Weight := 1 |};
                             {| UpstreamID := "id:default_b_8080";
                                Weight := 3 |} ] |} ] ]}.
Proof. eexists. repeat split; vm_compute; reflexivity. Qed.

Lemma C3_upstream_binding_witness :
  Sample.step Sample.resolver Sample.h_two ["foo.com"] 1
              DefaultEmptyTranslateContext Sample.rule_split
  = Ok (Sample.the_ctx
          (Sample.step Sample.resolver Sample.h_two ["foo.com"] 1
                       DefaultEmptyTranslateContext Sample.rule_split))
  ∧ existsb resolvable (BackendRefs Sample.rule_split) = true
  ∧ ∃ rs : list Route,
      length rs = 2%nat
      ∧ Forall (split_binding
                  [ {| UpstreamID := "id:default_a_80"; Weight := 1 |};
                    {| UpstreamID := "id:default_b_8080"; Weight := 3 |} ])
               (rule_routes Sample.GenID Sample.ComposeUpstreamName
                            Sample.ComposeRouteName Sample.Endpoint
                            Sample.h_two Sample.resolver ["foo.com"] 1
                            Sample.rule_split rs).
Proof.
  assert (Sample.step Sample.resolver Sample.h_two ["foo.com"] 1
                      DefaultEmptyTranslateContext Sample.rule_split
          = Ok (Sample.the_ctx
                  (Sample.step Sample.resolver Sample.h_two ["foo.com"] 1
                               DefaultEmptyTranslateContext
                               Sample.rule_split))) as H1
    by (vm_compute; reflexivity).
  split; [exact H1|]. split; [reflexivity|].
  destruct (C3_upstream_binding
              Sample.GenID Sample.ComposeUpstreamName Sample.ComposeRouteName
              Sample.Endpoint Sample.resolver Sample.h_two ["foo.com"] 1
              DefaultEmptyTranslateContext _ Sample.rule_split H1 eq_refl)
    as (rs & _ & Hlen & _ & Hbind).
  exists rs. split; [exact Hlen | exact Hbind].
Defined.

Lemma C4_resolver_failure_witness :
  Sample.translate Sample.resolver Sample.h_missing
  = Err (errors_Wrap (errors_New "service not found")
           "failed to translate Rules[1].BackendRefs[1]").
Proof.
  apply (C4_resolver_failure
           Sample.GenID Sample.ComposeUpstreamName Sample.ComposeRouteName
           Sample.Endpoint Sample.resolver Sample.h_missing
           [Sample.rule_default] [] Sample.rule_missing
           [Sample.svc "svc" (Some 80) None]
           [Sample.svc "later" None None]
           (Sample.svc "missing" (Some 80) None) 80
           (errors_New "service not found")
           (Sample.the_ctx
              (Sample.translate Sample.resolver
                 (with_Rules Sample.h_missing [Sample.rule_default]))));
    reflexivity.
Defined.


Lemma C7_default_match_witness :
  Matches Sample.rule_default = []
  ∧ existsb resolvable (BackendRefs Sample.rule_default) = true
  ∧ forallb (backend_passes Sample.resolver (Sample.route1 [Sample.rule_default]))
            (BackendRefs Sample.rule_default) = true
  ∧ ∃ r : Route,
      Sample.step Sample.resolver (Sample.route1 [Sample.rule_default])
                  ["foo.com"] 0 DefaultEmptyTranslateContext
                  Sample.rule_default
      = Ok (AddRoute r
              (AddUpstream Sample.upstream_svc DefaultEmptyTranslateContext))
      ∧ Uri r = "/*" ∧ Hosts r = ["foo.com"].
Proof.
  split; [reflexivity|]. split; [reflexivity|]. split; [reflexivity|].
  destruct (C7_default_match
              Sample.GenID Sample.ComposeUpstreamName Sample.ComposeRouteName
              Sample.Endpoint Sample.resolver
              (Sample.route1 [Sample.rule_default]) 0
              DefaultEmptyTranslateContext Sample.rule_default
              eq_refl eq_refl eq_refl)
    as (r & Hstep & _ & Huri & Hhosts & _).
  exists r. split; [exact Hstep|]. split; [exact Huri | exact Hhosts].
Defined.

Lemma C8_header_modifier_witness :
  filter_Type Sample.header_filter = "RequestHeaderModifier"
  ∧ RequestHeaderModifier Sample.header_filter = Some Sample.header_modifier
  ∧ ∃ headers : gmap string string,
      filter_step ∅ Sample.header_filter
      = <["proxy-rewrite" := RewriteConfig headers]> ∅
      ∧ headers !! "X-A" = Some "set"
      ∧ headers !! "X-B" = Some "b"
      ∧ headers !! "X-C" = Some ""
      ∧ headers !! "X-D" = None.
Proof.
  split; [reflexivity|]. split; [reflexivity|].
  destruct (C8_header_modifier ∅ Sample.header_filter Sample.header_modifier [])
    as (Hemit & _ & _).
  destruct (Hemit eq_refl eq_refl) as (headers & Hstep & Hlook & _).
  exists headers. split; [exact Hstep|].
  rewrite !Hlook. repeat split; reflexivity.
Defined.



(** * Further properties of the translator *)

(** ** The match compiler, in full *)

Lemma recognized_b_spec (ty : option string) :
  recognized_b ty = true ↔ recognized ty.
Proof.
  unfold recognized_b, recognized. destruct ty as [ty|].
  - rewrite orb_true_iff, !bool_decide_eq_true. split.
    + intros [-> | ->]; auto.
    + intros [H | H]; inversion H; auto.
  - split; [discriminate | intros [H | H]; discriminate].
Qed.

Lemma recognized_forallb {A : Type} (f : A → option string) (l : list A) :
  Forall (λ a, recognized (f a)) l → forallb (λ a, recognized_b (f a)) l = true.
Proof.
  induction 1 as [|a l Ha _ IH]; simpl; [reflexivity|].
  rewrite IH, andb_true_r. apply recognized_b_spec, Ha.
Qed.

Lemma translate_header_complete (r : Route) (h : HTTPHeaderMatch) :
  recognized_b (header_Type h) = true →
  translate_header r h = Ok (add_Vars r [spec_header_var h]).
Proof.
  intros Hrec. apply recognized_b_spec in Hrec.
  unfold translate_header, spec_header_var, spec_operator.
  destruct Hrec as [-> | ->]; reflexivity.
Qed.

Lemma translate_query_complete (r : Route) (q : HTTPQueryParamMatch) :
  recognized_b (query_Type q) = true →
  translate_query r q = Ok (add_Vars r [spec_query_var q]).
Proof.
  intros Hrec. apply recognized_b_spec in Hrec.
  unfold translate_query, spec_query_var, spec_operator.
  destruct Hrec as [-> | ->]; reflexivity.
Qed.

Lemma add_Vars_add_Vars (r : Route) (vs ws : list (list StringOrSlice)) :
  add_Vars (add_Vars r vs) ws = add_Vars r (vs ++ ws).
Proof. unfold add_Vars. simpl. rewrite app_assoc. reflexivity. Qed.

Lemma add_Vars_nil (r : Route) : add_Vars r [] = r.
Proof. destruct r. unfold add_Vars. simpl. rewrite app_nil_r. reflexivity. Qed.

Lemma headers_loop_complete (hs : list HTTPHeaderMatch) :
  forallb (λ h, recognized_b (header_Type h)) hs = true →
  ∀ r, range_loop translate_header r hs
       = Ok (add_Vars r (map spec_header_var hs)).
Proof.
  induction hs as [|h hs IH]; intros Hall r.
  - simpl. rewrite add_Vars_nil. reflexivity.
  - cbn [forallb] in Hall. apply andb_true_iff in Hall as [Hh Hall].
    cbn [range_loop]. rewrite (translate_header_complete r h Hh). simpl.
    rewrite (IH Hall), add_Vars_add_Vars. reflexivity.
Qed.

Lemma queries_loop_complete (qs : list HTTPQueryParamMatch) :
  forallb (λ q, recognized_b (query_Type q)) qs = true →
  ∀ r, range_loop translate_query r qs
       = Ok (add_Vars r (map spec_query_var qs)).
Proof.
  induction qs as [|q qs IH]; intros Hall r.
  - simpl. rewrite add_Vars_nil. reflexivity.
  - cbn [forallb] in Hall. apply andb_true_iff in Hall as [Hq Hall].
    cbn [range_loop]. rewrite (translate_query_complete r q Hq). simpl.
    rewrite (IH Hall), add_Vars_add_Vars. reflexivity.
Qed.

Lemma translate_path_compilable (r r' : Route) (p : HTTPPathMatch) :
  translate_path r p = Ok r' → compilable_path p = true.
Proof.
  unfold translate_path, compilable_path.
  unfold PathMatchExact, PathMatchPathPrefix, PathMatchRegularExpression.
  destruct (path_Type p) as [ty|]; simpl; [|discriminate].
  destruct (decide (ty = "Exact")) as [->|H1];
    [destruct (path_Value p); [reflexivity | discriminate]|].
  destruct (decide (ty = "PathPrefix")) as [->|H2];
    [destruct (path_Value p); [reflexivity | discriminate]|].
  destruct (decide (ty = "RegularExpression")) as [->|H3];
    [destruct (path_Value p); [reflexivity | discriminate]|].
  discriminate.
Qed.

Lemma translate_path_complete (p : HTTPPathMatch) :
  compilable_path p = true →
  translate_path NewDefaultRoute p = Ok (path_route p).
Proof.
  unfold compilable_path, translate_path, path_route, spec_route, spec_uri,
    spec_path_vars.
  unfold PathMatchExact, PathMatchPathPrefix, PathMatchRegularExpression.
  destruct p as [[ty|] [v|]]; simpl; try discriminate.
  - intros Hp.
    destruct (decide (ty = "Exact")) as [->|H1]; [reflexivity|].
    destruct (decide (ty = "PathPrefix")) as [->|H2]; [reflexivity|].
    destruct (decide (ty = "RegularExpression")) as [->|H3]; [reflexivity|].
    rewrite !bool_decide_eq_false_2 in Hp by assumption. discriminate.
  - rewrite andb_false_r. discriminate.
Qed.

Lemma bind_Ok_l {A B : Type} (a : A) (k : A → result B) :
  (x ← Ok a; k x) = k a.
Proof. reflexivity. Qed.

(** The match compiler on a match it gets through. *)
Lemma translate_match_complete (m : HTTPRouteMatch) :
  compilable m = true → translateGatewayHTTPRouteMatch m = Ok (spec_route m).
Proof.
  unfold compilable.
  intros [[Hp Hh]%andb_true_iff Hq]%andb_true_iff.
  unfold translateGatewayHTTPRouteMatch.
  destruct m as [pa hs qs me]. cbn [Path Headers QueryParams Method] in *.
  assert (∀ r1 : Route,
             (route ← range_loop translate_header r1 hs;
              route ← range_loop translate_query route qs;
              Ok (match me with
                  | Some me' => set_Methods route [me']
                  | None => route
                  end))
             = Ok (match me with
                   | Some me' =>
                     set_Methods
                       (add_Vars r1 (map spec_header_var hs
                                       ++ map spec_query_var qs))
                       [me']
                   | None =>
                     add_Vars r1 (map spec_header_var hs
                                    ++ map spec_query_var qs)
                   end)) as Htail.
  { intros r1. rewrite (headers_loop_complete _ Hh), bind_Ok_l.
    rewrite (queries_loop_complete _ Hq), bind_Ok_l.
    rewrite add_Vars_add_Vars. reflexivity. }
  destruct pa as [p|].
  - rewrite (translate_path_complete p Hp), bind_Ok_l, Htail.
    unfold path_route, spec_route, spec_uri, spec_path_vars, set_Methods,
      add_Vars.
    cbn [route_ID Uri Hosts Vars Methods route_Plugins UpstreamId
         Path Headers QueryParams Method map].
    rewrite !app_nil_r. destruct me; reflexivity.
  - rewrite bind_Ok_l, Htail. destruct me; reflexivity.
Qed.

Lemma translate_match_compilable (m : HTTPRouteMatch) (r : Route) :
  translateGatewayHTTPRouteMatch m = Ok r → compilable m = true.
Proof.
  intros Hr. pose proof (translate_match_Ok m r Hr) as (_ & Hh & Hq & _).
  unfold compilable.
  rewrite (recognized_forallb _ _ Hh), (recognized_forallb _ _ Hq), !andb_true_r.
  unfold translateGatewayHTTPRouteMatch in Hr.
  apply bind_Ok in Hr as (r1 & Hp & _).
  destruct (Path m) as [p|]; [|reflexivity].
  apply (translate_path_compilable _ _ _ Hp).
Qed.

Lemma compiles_spec_route (m : HTTPRouteMatch) (r : Route) :
  compiles m r → compilable m = true ∧ r = spec_route m.
Proof.
  unfold compiles. intros Hr.
  pose proof (translate_match_compilable m r Hr) as Hc.
  split; [exact Hc|].
  rewrite (translate_match_complete m Hc) in Hr. inversion Hr. reflexivity.
Qed.

(** X1: the match compiler returns a route exactly for the matches whose
    path match (if any) has one of the three types and a value, and whose
    header and query matches all have type Exact or RegularExpression; the
    route is then the one with the URI of the path match (the value for
    Exact, the value followed by "*" for PathPrefix, empty otherwise), the
    variable conditions, the single method if one is given, and no
    identifier, host, plugin or upstream yet. *)
Theorem X1_compile_success (m : HTTPRouteMatch) (r : Route) :
  translateGatewayHTTPRouteMatch m = Ok r
  ↔ compilable m = true ∧ r = spec_route m.
Proof.
  split.
  - intros Hr. pose proof (translate_match_compilable m r Hr) as Hc.
    split; [exact Hc|].
    rewrite (translate_match_complete m Hc) in Hr. inversion Hr. reflexivity.
  - intros [Hc ->]. apply translate_match_complete, Hc.
Qed.

Lemma range_loop_app {A St : Type} (body : St → A → result St)
    (l1 l2 : list A) :
  ∀ s : St,
    range_loop body s (l1 ++ l2)
    = (s' ← range_loop body s l1; range_loop body s' l2).
Proof.
  induction l1 as [|a l1 IH]; intros s; simpl; [reflexivity|].
  destruct (body s a) as [s1|e|]; simpl; auto.
Qed.

Lemma translate_path_unknown (r : Route) (p : HTTPPathMatch) (ty : string) :
  path_Type p = Some ty →
  unknown_path_type p = true →
  translate_path r p = Err (errors_New ("unknown path match type " +:+ ty)).
Proof.
  unfold unknown_path_type, translate_path.
  unfold PathMatchExact, PathMatchPathPrefix, PathMatchRegularExpression.
  intros -> Hun. simpl.
  apply negb_true_iff in Hun.
  apply orb_false_iff in Hun as [[H1 H2]%orb_false_iff H3].
  apply bool_decide_eq_false in H1, H2, H3.
  rewrite !decide_False by assumption. reflexivity.
Qed.

Lemma translate_header_unknown (r : Route) (h : HTTPHeaderMatch) (ty : string) :
  header_Type h = Some ty →
  unknown_type (Some ty) = true →
  translate_header r h
  = Err (errors_New ("unknown header match type " +:+ ty)).
Proof.
  unfold unknown_type, translate_header.
  unfold HeaderMatchExact, HeaderMatchRegularExpression.
  intros -> Hun. simpl.
  apply negb_true_iff in Hun. apply orb_false_iff in Hun as [H1 H2].
  apply bool_decide_eq_false in H1, H2.
  rewrite !decide_False by assumption. reflexivity.
Qed.

Lemma translate_query_unknown (r : Route) (q : HTTPQueryParamMatch)
    (ty : string) :
  query_Type q = Some ty →
  unknown_type (Some ty) = true →
  translate_query r q = Err (errors_New ("unknown query match type " +:+ ty)).
Proof.
  unfold unknown_type, translate_query.
  unfold QueryParamMatchExact, QueryParamMatchRegularExpression.
  intros -> Hun. simpl.
  apply negb_true_iff in Hun. apply orb_false_iff in Hun as [H1 H2].
  apply bool_decide_eq_false in H1, H2.
  rewrite !decide_False by assumption. reflexivity.
Qed.

Lemma path_block_Ok (m : HTTPRouteMatch) :
  path_ok m = true →
  ∃ r1, match Path m with
        | Some p => translate_path NewDefaultRoute p
        | None => Ok NewDefaultRoute
        end = Ok r1.
Proof.
  unfold path_ok. destruct (Path m) as [p|]; intros Hp; [|eauto].
  rewrite (translate_path_complete p Hp). eauto.
Qed.

(** X2: the first part of a match with a type outside the recognized kinds
    decides the error of the match compiler.  An unknown path match type
    gives "unknown path match type T" whatever the headers and query
    parameters are; with the path through, the first header of unknown type
    after headers of recognized type gives "unknown header match type T"
    whatever comes after; with path and headers through, the first such
    query parameter gives "unknown query match type T". *)
Theorem X2_first_unknown_type (m : HTTPRouteMatch) (ty : string) :
  (∀ p, Path m = Some p → path_Type p = Some ty →
        unknown_path_type p = true →
        translateGatewayHTTPRouteMatch m
        = Err (errors_New ("unknown path match type " +:+ ty)))
  ∧ (∀ hpre h hpost,
        path_ok m = true →
        Headers m = hpre ++ h :: hpost →
        forallb (λ h', recognized_b (header_Type h')) hpre = true →
        header_Type h = Some ty →
        unknown_type (Some ty) = true →
        translateGatewayHTTPRouteMatch m
        = Err (errors_New ("unknown header match type " +:+ ty)))
  ∧ (∀ qpre q qpost,
        path_ok m = true →
        forallb (λ h', recognized_b (header_Type h')) (Headers m) = true →
        QueryParams m = qpre ++ q :: qpost →
        forallb (λ q', recognized_b (query_Type q')) qpre = true →
        query_Type q = Some ty →
        unknown_type (Some ty) = true →
        translateGatewayHTTPRouteMatch m
        = Err (errors_New ("unknown query match type " +:+ ty))).
Proof.
  unfold translateGatewayHTTPRouteMatch. split; [|split].
  - intros p -> Hty Hun.
    rewrite (translate_path_unknown _ p ty Hty Hun). reflexivity.
  - intros hpre h hpost Hp -> Hpre Hty Hun.
    destruct (path_block_Ok m Hp) as [r1 ->]. rewrite bind_Ok_l.
    rewrite range_loop_app, (headers_loop_complete _ Hpre), bind_Ok_l.
    cbn [range_loop].
    rewrite (translate_header_unknown _ h ty Hty Hun). reflexivity.
  - intros qpre q qpost Hp Hh -> Hpre Hty Hun.
    destruct (path_block_Ok m Hp) as [r1 ->]. rewrite bind_Ok_l.
    rewrite (headers_loop_complete _ Hh), bind_Ok_l.
    rewrite range_loop_app, (queries_loop_complete _ Hpre), bind_Ok_l.
    cbn [range_loop].
    rewrite (translate_query_unknown _ q ty Hty Hun). reflexivity.
Qed.

(** ** Variable names *)








(** ** The header modifier *)

Lemma last_value_is_Some (k : string) (l : list HTTPHeader) :
  is_Some (last_value k l) ↔ k ∈ map hdr_Name l.
Proof.
  induction l as [|h l IH]; simpl.
  - split; [intros [v Hv]; discriminate | intros []%elem_of_nil].
  - rewrite elem_of_cons, <- IH.
    destruct (last_value k l) as [v|]; simpl.
    + split; [intros _; right; eauto | eauto].
    + case_decide as Hk; split.
      * intros _. left. congruence.
      * eauto.
      * intros [v Hv]. discriminate.
      * intros [Heq | [v Hv]]; [congruence | discriminate].
Qed.

(** X4: the headers mapping a RequestHeaderModifier compiles to has an
    entry exactly for the header names of its Add, Set and Remove lists; a
    modifier with three empty lists still puts the proxy-rewrite plugin, with
    an empty mapping, and a nil modifier puts nothing. *)
Theorem X4_header_modifier_keys (plugins : Plugins)
    (m : HTTPRequestHeaderFilter) :
  (∃ headers : gmap string string,
      generatePluginFromHTTPRequestHeaderFilter plugins (Some m)
      = <["proxy-rewrite" := RewriteConfig headers]> plugins
      ∧ dom headers
        = list_to_set (map hdr_Name (Add m) ++ map hdr_Name (Set_ m)
                         ++ Remove m))
  ∧ generatePluginFromHTTPRequestHeaderFilter plugins None = plugins.
Proof.
  split; [|reflexivity].
  destruct (header_filter_lookup plugins m) as (headers & Hgen & Hlook).
  exists headers. split; [exact Hgen|].
  apply set_eq. intros k.
  rewrite elem_of_dom, Hlook, elem_of_list_to_set, !elem_of_app.
  rewrite <- !last_value_is_Some. unfold spec_header_lookup.
  case_bool_decide as Hrm.
  - split; [auto | eauto].
  - destruct (last_value k (Set_ m)) as [v|]; simpl.
    + split; [intros _; right; left; eauto | eauto].
    + split.
      * intros Hs. left. exact Hs.
      * intros [Hs | [[v Hv] | Hr]]; [exact Hs | discriminate | contradiction].
Qed.

(** ** The filter compiler, as a whole *)

Lemma filter_step_cases (plugins : Plugins) (f : HTTPRouteFilter) :
  filter_step plugins f
  = generatePluginFromHTTPRequestRedirectFilter
      (generatePluginFromHTTPRequestHeaderFilter plugins (own_modifier f))
      (own_redirect f).
Proof.
  unfold filter_step, own_modifier, own_redirect.
  unfold HTTPRouteFilterRequestHeaderModifier, HTTPRouteFilterRequestRedirect.
  destruct (decide (filter_Type f = "RequestHeaderModifier")) as [H1|H1].
  - rewrite decide_False by (rewrite H1; discriminate). reflexivity.
  - simpl. destruct (decide (filter_Type f = "RequestRedirect")); [reflexivity|].
    case_decide; reflexivity.
Qed.

Lemma header_filter_lookup_key (plugins : Plugins)
    (om : option HTTPRequestHeaderFilter) (k : string) :
  generatePluginFromHTTPRequestHeaderFilter plugins om !! k
  = match om with
    | Some m =>
      if decide (k = "proxy-rewrite")
      then generatePluginFromHTTPRequestHeaderFilter ∅ (Some m) !! k
      else plugins !! k
    | None => plugins !! k
    end.
Proof.
  destruct om as [m|]; [|reflexivity].
  unfold generatePluginFromHTTPRequestHeaderFilter.
  case_decide as Hk.
  - subst. rewrite !lookup_insert_eq. reflexivity.
  - rewrite lookup_insert_ne by congruence. reflexivity.
Qed.

Lemma redirect_filter_lookup_key (plugins : Plugins)
    (or : option HTTPRequestRedirectFilter) (k : string) :
  generatePluginFromHTTPRequestRedirectFilter plugins or !! k
  = match or with
    | Some r =>
      if decide (k = "redirect")
      then generatePluginFromHTTPRequestRedirectFilter ∅ (Some r) !! k
      else plugins !! k
    | None => plugins !! k
    end.
Proof.
  destruct or as [r|]; [|reflexivity].
  unfold generatePluginFromHTTPRequestRedirectFilter.
  case_decide as Hk.
  - subst. rewrite !lookup_insert_eq. reflexivity.
  - rewrite lookup_insert_ne by congruence. reflexivity.
Qed.

Lemma filters_fold_lookup (fs : list HTTPRouteFilter) (k : string) :
  ∀ plugins : Plugins,
    foldl filter_step plugins fs !! k
    = if decide (k = "proxy-rewrite") then
        match last_modifier fs with
        | Some m => generatePluginFromHTTPRequestHeaderFilter ∅ (Some m) !! k
        | None => plugins !! k
        end
      else if decide (k = "redirect") then
        match last_redirect fs with
        | Some r => generatePluginFromHTTPRequestRedirectFilter ∅ (Some r) !! k
        | None => plugins !! k
        end
      else plugins !! k.
Proof.
  induction fs as [|f fs IH]; intros plugins.
  - simpl. repeat case_decide; reflexivity.
  - cbn [foldl last_modifier last_redirect]. rewrite IH, filter_step_cases.
    rewrite redirect_filter_lookup_key, header_filter_lookup_key.
    destruct (decide (k = "proxy-rewrite")) as [->|Hpr].
    + destruct (last_modifier fs); [reflexivity|].
      destruct (own_redirect f), (own_modifier f); reflexivity.
    + destruct (decide (k = "redirect")) as [->|Hrd].
      * destruct (last_redirect fs); [reflexivity|].
        destruct (own_redirect f), (own_modifier f); reflexivity.
      * destruct (own_redirect f), (own_modifier f); reflexivity.
Qed.

(** X5: the plugin map of a filter list holds, under proxy-rewrite, what
    the last RequestHeaderModifier filter with a modifier compiles to on its
    own, under redirect, what the last RequestRedirect filter with a
    configuration compiles to on its own, and nothing under any other key:
    filters of one kind do not merge, the last one replaces the ones
    before. *)
Theorem X5_last_filter_wins (fs : list HTTPRouteFilter) (k : string) :
  generatePluginsFromHTTPRouteFilter fs !! k
  = if decide (k = "proxy-rewrite") then
      generatePluginFromHTTPRequestHeaderFilter ∅ (last_modifier fs) !! k
    else if decide (k = "redirect") then
      generatePluginFromHTTPRequestRedirectFilter ∅ (last_redirect fs) !! k
    else None.
Proof.
  unfold generatePluginsFromHTTPRouteFilter. rewrite filters_fold_lookup.
  repeat case_decide; try apply lookup_empty.
  - destruct (last_modifier fs); [reflexivity | apply lookup_empty].
  - destruct (last_redirect fs); [reflexivity | apply lookup_empty].
Qed.

(** X6: applying a filter twice is applying it once, and two filters of
    different types can be applied in either order. *)
Theorem X6_filter_steps_compose (plugins : Plugins) (f g : HTTPRouteFilter) :
  filter_step (filter_step plugins f) f = filter_step plugins f
  ∧ (filter_Type f ≠ filter_Type g →
     filter_step (filter_step plugins f) g
     = filter_step (filter_step plugins g) f).
Proof.
  split.
  - apply map_eq. intros k.
    change (filter_step (filter_step plugins f) f)
      with (foldl filter_step plugins [f; f]).
    change (filter_step plugins f) with (foldl filter_step plugins [f]).
    rewrite !filters_fold_lookup. cbn [last_modifier last_redirect].
    generalize (own_modifier f), (own_redirect f).
    intros [m|] [r|]; reflexivity.
  - intros Hne. apply map_eq. intros k.
    assert (own_modifier f = None ∨ own_modifier g = None) as Hm.
    { unfold own_modifier. repeat case_decide; auto. congruence. }
    assert (own_redirect f = None ∨ own_redirect g = None) as Hr.
    { unfold own_redirect. repeat case_decide; auto. congruence. }
    change (filter_step (filter_step plugins f) g)
      with (foldl filter_step plugins [f; g]).
    change (filter_step (filter_step plugins g) f)
      with (foldl filter_step plugins [g; f]).
    rewrite !filters_fold_lookup. cbn [last_modifier last_redirect].
    revert Hm Hr.
    generalize (own_modifier f), (own_modifier g), (own_redirect f),
      (own_redirect g).
    intros [m1|] [m2|] [r1|] [r2|] [Hm|Hm] [Hr|Hr];
      try discriminate; reflexivity.
Qed.

(** ** Positions in route names *)

Lemma append_cons (x : ascii) (a b : string) :
  String x a +:+ b = String x (a +:+ b).
Proof. reflexivity. Qed.

Lemma append_nil (b : string) : "" +:+ b = b.
Proof. reflexivity. Qed.

Lemma string_app_assoc (a b c : string) : (a +:+ b) +:+ c = a +:+ (b +:+ c).
Proof.
  induction a as [|x a IH]; [reflexivity|].
  rewrite !append_cons, IH. reflexivity.
Qed.

Lemma all_digits_app (a b : string) :
  all_digits (a +:+ b) = all_digits a && all_digits b.
Proof.
  induction a as [|x a IH]; [reflexivity|].
  rewrite append_cons. simpl. rewrite IH, andb_assoc. reflexivity.
Qed.

Lemma pretty_N_char_digit (x : N) : is_digit (pretty_N_char x) = true.
Proof.
  unfold pretty_N_char.
  repeat match goal with
         | |- context [match ?y with _ => _ end] => destruct y
         end; reflexivity.
Qed.

Lemma pretty_N_go_digits (x : N) :
  ∀ s, ∃ d, pretty_N_go x s = d +:+ s ∧ all_digits d = true.
Proof.
  induction (N.lt_wf_0 x) as [x _ IH]; intros s.
  destruct (decide (x = 0%N)) as [->|Hx].
  - exists "". rewrite pretty_N_go_0. auto.
  - rewrite pretty_N_go_step by lia.
    destruct (IH (x `div` 10)%N) with
      (s := String (pretty_N_char (x `mod` 10)) s) as (d & -> & Hd).
    { apply N.div_lt; lia. }
    exists (d +:+ String (pretty_N_char (x `mod` 10)) "").
    rewrite string_app_assoc. split; [reflexivity|].
    rewrite all_digits_app, Hd. simpl.
    rewrite pretty_N_char_digit. reflexivity.
Qed.

Lemma index_string_digits (i : nat) : all_digits (index_string i) = true.
Proof.
  unfold index_string, Sprint_int, pretty, pretty_Z.
  destruct (Z.of_nat i) as [|p|p] eqn:Hi; [reflexivity | | lia].
  change (pretty p) with (pretty (N.pos p)).
  unfold pretty, pretty_N. rewrite decide_False by discriminate.
  destruct (pretty_N_go_digits (N.pos p) "") as (d & -> & Hd).
  rewrite all_digits_app, Hd. reflexivity.
Qed.

Lemma index_string_inj (i i' : nat) : index_string i = index_string i' → i = i'.
Proof.
  unfold index_string, Sprint_int. intros H.
  apply (inj pretty) in H. lia.
Qed.

Lemma digits_dash_split (d1 : string) :
  ∀ d2 r1 r2,
    all_digits d1 = true → all_digits d2 = true →
    d1 +:+ String "-" r1 = d2 +:+ String "-" r2 →
    d1 = d2 ∧ r1 = r2.
Proof.
  induction d1 as [|c1 d1 IH]; intros [|c2 d2] r1 r2 H1 H2 Heq;
    rewrite ?append_cons, ?append_nil in Heq; simpl in H1, H2.
  - inversion Heq. auto.
  - inversion Heq. subst c2. discriminate H2.
  - inversion Heq. subst c1. discriminate H1.
  - apply andb_true_iff in H1 as [_ H1]. apply andb_true_iff in H2 as [_ H2].
    inversion Heq. subst c2.
    destruct (IH d2 r1 r2 H1 H2 ltac:(assumption)) as [-> ->]. auto.
Qed.

(** X7: the text "i-j" that goes into a route's name determines the rule
    index and the match index: two positions with the same text are the same
    position. *)
Theorem X7_rule_string_injective (i j i' j' : nat) :
  rule_string i j = rule_string i' j' → i = i' ∧ j = j'.
Proof.
  unfold rule_string. intros Heq.
  apply digits_dash_split in Heq as [Hi Hj];
    try apply index_string_digits.
  split; apply index_string_inj; assumption.
Qed.

Lemma route_name_rule_string (ComposeRouteName : string → string → string → string)
    (h : HTTPRoute) (i j : nat) :
  route_name ComposeRouteName h i j
  = ComposeRouteName (Namespace h) (Name h) (rule_string i j).
Proof. reflexivity. Qed.

(** ** Rules and the whole translation *)

Section Coverage.

Variable GenID : string → string.
Variable ComposeUpstreamName : string → string → string → Z → string → string.
Variable ComposeRouteName : string → string → string → string.
Variable Endpoint : string.

Local Abbreviation backends_loop_body :=
  (backend_step GenID ComposeUpstreamName Endpoint).
Local Abbreviation matches_loop_body := (match_step GenID ComposeRouteName).
Local Abbreviation rules_loop_body :=
  (rule_step GenID ComposeUpstreamName ComposeRouteName Endpoint).
Local Abbreviation translation :=
  (TranslateGatewayHTTPRouteV1Alpha2 GenID ComposeUpstreamName
     ComposeRouteName Endpoint).
Local Abbreviation upstreams_of_rule :=
  (rule_upstreams GenID ComposeUpstreamName Endpoint).
Local Abbreviation routes_of_rule :=
  (rule_routes GenID ComposeUpstreamName ComposeRouteName Endpoint).
Local Abbreviation resolved_refs :=
  (resolved GenID ComposeUpstreamName Endpoint).
Local Abbreviation labelled_upstream :=
  (labelled GenID ComposeUpstreamName Endpoint).
Local Abbreviation id_of_upstream :=
  (upstream_id GenID ComposeUpstreamName Endpoint).

Lemma compiles_all (ms : list HTTPRouteMatch) (rs : list Route) :
  Forall2 compiles ms rs ↔ forallb compilable ms = true ∧ rs = map spec_route ms.
Proof.
  split.
  - induction 1 as [|m r ms rs Hm _ IH]; [auto|].
    apply compiles_spec_route in Hm as [Hc ->].
    destruct IH as [Hall ->]. simpl. rewrite Hc, Hall. auto.
  - intros [Hall ->]. induction ms as [|m ms IH]; [constructor|].
    cbn [forallb] in Hall. apply andb_true_iff in Hall as [Hc Hall].
    constructor; [apply translate_match_complete, Hc | apply IH, Hall].
Qed.


(** X8: a rule with a resolved backend that translates adds to the context
    its upstreams and then, per match in declaration order (the default
    match when it has none), the route of that match: the identifier of the
    position, the URI, conditions and method of the match.  Each of these
    routes has the hosts of the call, and the plugins of the rule's filters
    under every key but traffic-split. *)
Theorem X8_rule_routes (t : translator) (h : HTTPRoute) (hosts : list string)
    (i : nat) (ctx ctx' : TranslateContext) (rule : HTTPRouteRule) :
  rules_loop_body t h hosts i ctx rule = Ok ctx' →
  existsb resolvable (BackendRefs rule) = true →
  ctx' = add_routes
           (routes_of_rule h t hosts i rule (map spec_route (matches_of rule)))
           (add_upstreams (upstreams_of_rule h t rule) ctx)
  ∧ Forall2
      (λ m r,
         Uri r = spec_uri m ∧ Vars r = Vars (spec_route m)
         ∧ Methods r = Methods (spec_route m)
         ∧ Hosts r = hosts
         ∧ ∀ k, k ≠ "traffic-split" →
                route_Plugins r !! k
                = generatePluginsFromHTTPRouteFilter (Filters rule) !! k)
      (matches_of rule)
      (routes_of_rule h t hosts i rule (map spec_route (matches_of rule)))
  ∧ map route_ID
        (routes_of_rule h t hosts i rule (map spec_route (matches_of rule)))
    = map (route_id GenID ComposeRouteName h i)
          (seq 0 (length (matches_of rule))).
Proof.
  intros Hr Hex. apply rule_step_Ok in Hr as [_ Hr]. rewrite Hex in Hr.
  destruct Hr as (rs & Hrs & ->).
  apply compiles_all in Hrs as [_ ->].
  split; [reflexivity|]. split.
  - unfold rule_routes.
    assert (∀ (f : nat → nat) (ms : list HTTPRouteMatch),
               Forall2
                 (λ m r,
                    Uri r = spec_uri m ∧ Vars r = Vars (spec_route m)
                    ∧ Methods r = Methods (spec_route m)
                    ∧ Hosts r = hosts
                    ∧ ∀ k, k ≠ "traffic-split" →
                           route_Plugins r !! k
                           = generatePluginsFromHTTPRouteFilter
                               (Filters rule) !! k)
                 ms
                 (imap (λ k r0,
                          assembled GenID ComposeRouteName h hosts
                            (upstreams_of_rule h t rule)
                            (rule_weights GenID ComposeUpstreamName Endpoint
                                          h t rule)
                            (generatePluginsFromHTTPRouteFilter (Filters rule))
                            i (f k) r0)
                       (map spec_route ms))) as Hgen.
    { intros f ms'. revert f.
      induction ms' as [|m ms' IH]; intros f; [constructor|].
      cbn [map imap]. constructor; [|apply (IH (f ∘ S))].
      repeat (split; [reflexivity|]).
      intros k Hk. simpl. unfold bound_plugins.
      destruct (upstreams_of_rule h t rule) as [|u [|u' us]];
        try reflexivity.
      apply lookup_insert_ne. congruence. }
    apply (Hgen id (matches_of rule)).
  - rewrite rule_routes_IDs, length_map. reflexivity.
Qed.


Lemma rule_step_reach_matches (t : translator) (h : HTTPRoute)
    (hosts : list string) (i : nat) (ctx : TranslateContext)
    (rule : HTTPRouteRule) :
  forallb (backend_passes t h) (BackendRefs rule) = true →
  existsb resolvable (BackendRefs rule) = true →
  rules_loop_body t h hosts i ctx rule
  = ('(ctx2, _) ←
       range_loop_from
         (matches_loop_body h hosts (upstreams_of_rule h t rule)
            (rule_weights GenID ComposeUpstreamName Endpoint h t rule) i)
         0 (add_upstreams (upstreams_of_rule h t rule) ctx,
            generatePluginsFromHTTPRouteFilter (Filters rule))
         (matches_of rule);
     Ok ctx2).
Proof.
  intros Hpass Hex. unfold rule_step.
  case_decide as Hlen.
  { destruct (BackendRefs rule); [discriminate Hex | discriminate Hlen]. }
  rewrite (backend_loop_complete GenID ComposeUpstreamName Endpoint
             t h i _ Hpass), aggregated_resolved.
  rewrite bind_Ok_l. cbn [fst snd].
  case_decide as Hus.
  { rewrite app_nil_l, length_map in Hus. apply length_zero_iff_nil in Hus.
    apply (resolved_nil GenID ComposeUpstreamName ComposeRouteName Endpoint
             t h _ Hpass) in Hus.
    congruence. }
  rewrite matches_of_eq. reflexivity.
Qed.

(** X9: when a match fails to compile at position (i, j) of a rule the
    translation reaches (the rules before rule i translate, the backend
    references of rule i pass and one resolves, the matches before j
    compile), the translation returns the compiler's error wrapped with
    "failed to translate Rules[i].Matches[j]", whatever matches and rules
    come after. *)
Theorem X9_match_failure (t : translator) (h : HTTPRoute)
    (pre post : list HTTPRouteRule) (rule : HTTPRouteRule)
    (mpre mpost : list HTTPRouteMatch) (m : HTTPRouteMatch) (e : error)
    (ctx1 : TranslateContext) :
  Rules h = pre ++ rule :: post →
  translation t (with_Rules h pre) = Ok ctx1 →
  forallb (backend_passes t h) (BackendRefs rule) = true →
  existsb resolvable (BackendRefs rule) = true →
  Matches rule = mpre ++ m :: mpost →
  forallb compilable mpre = true →
  translateGatewayHTTPRouteMatch m = Err e →
  translation t h
  = Err (errors_Wrap e
           ("failed to translate " +:+ match_position (length pre)
                                                       (length mpre))).
Proof.
  intros Hrules Hpre Hpass Hex Hms Hmpre Hm.
  rewrite (translate_split GenID ComposeUpstreamName ComposeRouteName Endpoint
             t h pre post rule Hrules), Hpre, bind_Ok_l.
  rewrite (rule_step_reach_matches t h _ _ ctx1 rule Hpass Hex).
  assert (matches_of rule = mpre ++ m :: mpost) as ->.
  { unfold matches_of. rewrite Hms. destruct mpre; reflexivity. }
  rewrite range_loop_from_app.
  assert (Forall2 compiles mpre (map spec_route mpre)) as Hrs
    by (apply compiles_all; auto).
  destruct (match_loop_complete GenID ComposeRouteName h
              (collect_hosts (Hostnames h)) (upstreams_of_rule h t rule)
              (rule_weights GenID ComposeUpstreamName Endpoint h t rule)
              (length pre) mpre _ Hrs 0%nat
              (add_upstreams (upstreams_of_rule h t rule) ctx1)
              (generatePluginsFromHTTPRouteFilter (Filters rule)))
    as (p' & ->).
  rewrite bind_Ok_l. cbn [range_loop_from].
  rewrite match_step_cases, Hm. reflexivity.
Qed.

Lemma rule_step_ok (t : translator) (h : HTTPRoute) (hosts : list string)
    (i : nat) (ctx : TranslateContext) (rule : HTTPRouteRule) :
  (∃ ctx', rules_loop_body t h hosts i ctx rule = Ok ctx')
  ↔ rule_ok t h rule = true.
Proof.
  unfold rule_ok. split.
  - intros [ctx' Hr]. apply rule_step_Ok in Hr as [Hpass Hr].
    rewrite Hpass. simpl.
    destruct (existsb resolvable (BackendRefs rule)); [|reflexivity].
    destruct Hr as (rs & Hrs & _). apply compiles_all in Hrs as [Hc _].
    exact Hc.
  - intros [Hpass Hm]%andb_true_iff.
    destruct (existsb resolvable (BackendRefs rule)) eqn:Hex.
    + simpl in Hm.
      assert (Forall2 compiles (matches_of rule)
                      (map spec_route (matches_of rule))) as Hrs
        by (apply compiles_all; auto).
      rewrite (rule_step_complete GenID ComposeUpstreamName ComposeRouteName
                 Endpoint t h hosts i ctx rule _ Hpass Hex Hrs).
      eauto.
    + rewrite (rule_step_skip GenID ComposeUpstreamName ComposeRouteName
                 Endpoint t h hosts i ctx rule Hex).
      eauto.
Qed.

Lemma rules_loop_ok (t : translator) (h : HTTPRoute) (hosts : list string)
    (rules : list HTTPRouteRule) :
  ∀ (i0 : nat) (ctx : TranslateContext),
    (∃ ctx', range_loop_from (rules_loop_body t h hosts) i0 ctx rules = Ok ctx')
    ↔ forallb (rule_ok t h) rules = true.
Proof.
  induction rules as [|rule rules IH]; intros i0 ctx.
  - simpl. split; eauto.
  - cbn [range_loop_from forallb]. rewrite andb_true_iff. split.
    + intros [ctx' Hl]. apply bind_Ok in Hl as (ctx1 & H1 & Hl). split.
      * apply (rule_step_ok t h hosts i0 ctx rule). eauto.
      * apply (IH (S i0) ctx1). eauto.
    + intros [H1 Hl].
      apply (rule_step_ok t h hosts i0 ctx rule) in H1 as [ctx1 ->].
      rewrite bind_Ok_l. apply IH, Hl.
Qed.

(** X10: the translation returns a context exactly when every rule gets
    through: each backend reference of the rule is skipped or answered by
    the resolver with an upstream, and, when one of them resolves, every
    match of the rule compiles.  The matches of a rule without a resolving
    backend reference do not count. *)
Theorem X10_translation_succeeds (t : translator) (h : HTTPRoute) :
  (∃ ctx, translation t h = Ok ctx) ↔ translatable t h = true.
Proof. apply rules_loop_ok. Qed.


Lemma range_loop_from_ext_in {A St : Type}
    (body1 body2 : nat → St → A → result St) (l : list A) :
  (∀ i s a, a ∈ l → body1 i s a = body2 i s a) →
  ∀ (i : nat) (s : St), range_loop_from body1 i s l = range_loop_from body2 i s l.
Proof.
  induction l as [|a l IH]; intros Hext i s; [reflexivity|].
  cbn [range_loop_from]. rewrite Hext by apply list_elem_of_here.
  destruct (body2 i s a) as [s1|e|]; simpl; auto.
  apply IH. intros i' s' a' Hin. apply Hext, list_elem_of_further, Hin.
Qed.

(** X11: the translation looks at the resolver only where it asks: for the
    backend references of kind service with a port, with their namespace (the
    HTTPRoute's when the reference gives none), name, the empty subset and
    the port.  Two resolvers that answer the same there give the same
    result, context or error. *)
Theorem X11_resolver_use (t1 t2 : translator) (h : HTTPRoute) :
  (∀ rule b, rule ∈ Rules h → b ∈ BackendRefs rule →
             ask t1 h b = ask t2 h b) →
  translation t1 h = translation t2 h.
Proof.
  intros Hask. unfold TranslateGatewayHTTPRouteV1Alpha2.
  apply range_loop_from_ext_in. intros i ctx rule Hrule.
  unfold rule_step. case_decide; [reflexivity|].
  rewrite (range_loop_from_ext_in (backends_loop_body t1 h i)
             (backends_loop_body t2 h i)); [reflexivity|].
  intros j st b Hb.
  rewrite !backend_step_cases, (Hask rule b Hrule Hb). reflexivity.
Qed.

(** X12: on an HTTPRoute none of whose matches has a nil type or a nil path
    value, with a resolver that does not panic, the translation does not
    panic: it returns a context or an error. *)
Theorem X12_no_panic (t : translator) (h : HTTPRoute) :
  (∀ ns name subset port, TranslateService t ns name subset port ≠ Panic) →
  route_wf h = true →
  (∃ ctx, translation t h = Ok ctx) ∨ (∃ e, translation t h = Err e).
Proof.
  intros Ht Hwf.
  pose proof (translate_no_panic GenID ComposeUpstreamName ComposeRouteName
                Endpoint t h Ht Hwf) as Hnp.
  destruct (translation t h) as [ctx|e|]; [eauto | eauto | contradiction].
Qed.

Lemma rule_step_upstreams (t : translator) (h : HTTPRoute)
    (hosts : list string) (i : nat) (ctx ctx' : TranslateContext)
    (rule : HTTPRouteRule) (id : string) (u : Upstream) :
  rules_loop_body t h hosts i ctx rule = Ok ctx' →
  Upstreams ctx' !! id = Some u →
  Upstreams ctx !! id = Some u
  ∨ ∃ b u0, b ∈ BackendRefs rule ∧ ask t h b = Some (Ok u0)
            ∧ u = labelled_upstream h b u0 ∧ id = id_of_upstream h b.
Proof.
  intros Hr Hl. apply rule_step_Ok in Hr as [_ Hr].
  destruct (existsb resolvable (BackendRefs rule)); [|subst; auto].
  destruct Hr as (rs & _ & ->).
  rewrite add_routes_Upstreams in Hl.
  apply add_upstreams_lookup in Hl as [Hl | [Hin Hid]]; [auto|].
  right. unfold rule_upstreams in Hin.
  apply list_elem_of_fmap in Hin as ([b u'] & -> & Hin).
  apply resolved_elem in Hin as (Hb & u0 & Hask & ->).
  exists b, u0. simpl in *. auto.
Qed.

(** X13: every upstream of the context a translation returns is the
    resolver's upstream for a backend reference of one of the rules (a
    reference of kind service, with a port), with the three labels set and
    stored under the identifier of that reference. *)
Theorem X13_upstream_origin (t : translator) (h : HTTPRoute)
    (ctx : TranslateContext) (id : string) (u : Upstream) :
  translation t h = Ok ctx →
  Upstreams ctx !! id = Some u →
  ∃ i rule b port u0,
    Rules h !! i = Some rule
    ∧ b ∈ BackendRefs rule
    ∧ backend_kind b = "service"
    ∧ backend_Port b = Some port
    ∧ TranslateService t (backend_ns h b) (backend_Name b) "" (int32 port)
      = Ok u0
    ∧ u = labelled_upstream h b u0
    ∧ id = id_of_upstream h b.
Proof.
  unfold TranslateGatewayHTTPRouteV1Alpha2.
  generalize (collect_hosts (Hostnames h)). intros hosts.
  assert (∀ rules i0 c c',
             range_loop_from (rules_loop_body t h hosts) i0 c rules = Ok c' →
             Upstreams c' !! id = Some u →
             Upstreams c !! id = Some u
             ∨ ∃ k rule b u0,
                 rules !! k = Some rule ∧ b ∈ BackendRefs rule
                 ∧ ask t h b = Some (Ok u0)
                 ∧ u = labelled_upstream h b u0 ∧ id = id_of_upstream h b)
    as Hloop.
  { induction rules as [|rule rules IH]; intros i0 c c' Hl Hid.
    - inversion Hl. subst. auto.
    - cbn [range_loop_from] in Hl. apply bind_Ok in Hl as (c1 & H0 & Hl).
      destruct (IH _ _ _ Hl Hid) as [H1 | (k & rule' & b & u0 & Hk & Hrest)].
      + destruct (rule_step_upstreams _ _ _ _ _ _ _ _ _ H0 H1)
          as [Hc | (b & u0 & Hrest)]; [auto|].
        right. exists 0%nat, rule, b, u0. auto.
      + right. exists (S k), rule', b, u0. auto. }
  intros Ht Hid.
  destruct (Hloop _ _ _ _ Ht Hid)
    as [Hempty | (k & rule & b & u0 & Hk & Hb & Hask & Hu & Hi)].
  - simpl in Hempty. rewrite lookup_empty in Hempty. discriminate.
  - apply ask_Some in Hask as (Hkind & port & Hport & Hts).
    exists k, rule, b, port, u0. auto 10.
Qed.


Lemma rule_step_iff (t : translator) (h : HTTPRoute) (hosts : list string)
    (i : nat) (ctx ctx' : TranslateContext) (rule : HTTPRouteRule) :
  rules_loop_body t h hosts i ctx rule = Ok ctx'
  ↔ forallb (backend_passes t h) (BackendRefs rule) = true
    ∧ if existsb resolvable (BackendRefs rule)
      then forallb compilable (matches_of rule) = true
           ∧ ctx' = add_routes
                      (routes_of_rule h t hosts i rule
                         (map spec_route (matches_of rule)))
                      (add_upstreams (upstreams_of_rule h t rule) ctx)
      else ctx' = ctx.
Proof.
  split.
  - intros Hr. apply rule_step_Ok in Hr as [Hpass Hr].
    split; [exact Hpass|].
    destruct (existsb resolvable (BackendRefs rule)); [|exact Hr].
    destruct Hr as (rs & Hrs & ->).
    apply compiles_all in Hrs as [Hc ->]. auto.
  - intros [Hpass Hr].
    destruct (existsb resolvable (BackendRefs rule)) eqn:Hex.
    + destruct Hr as [Hc ->].
      apply rule_step_complete; [assumption | assumption |].
      apply compiles_all. auto.
    + subst ctx'. apply rule_step_skip, Hex.
Qed.

Lemma unresolvable_backend_passes (t : translator) (h : HTTPRoute)
    (b : HTTPBackendRef) :
  resolvable b = false → backend_passes t h b = true.
Proof.
  intros Hb. apply (ask_None t h) in Hb.
  unfold backend_passes. rewrite Hb. reflexivity.
Qed.

Lemma passes_filter (t : translator) (h : HTTPRoute) (bs : list HTTPBackendRef) :
  forallb (backend_passes t h) (List.filter resolvable bs)
  = forallb (backend_passes t h) bs.
Proof.
  induction bs as [|b bs IH]; [reflexivity|]. simpl.
  destruct (resolvable b) eqn:Hb; simpl; rewrite IH; [reflexivity|].
  rewrite (unresolvable_backend_passes t h b Hb). reflexivity.
Qed.

Lemma existsb_filter_self {A : Type} (f : A → bool) (l : list A) :
  existsb f (List.filter f l) = existsb f l.
Proof.
  induction l as [|a l IH]; [reflexivity|]. simpl.
  destruct (f a) eqn:Ha; simpl; rewrite ?Ha, IH; reflexivity.
Qed.

Lemma resolved_filter_self (t : translator) (h : HTTPRoute)
    (bs : list HTTPBackendRef) :
  resolved_refs h t (List.filter resolvable bs) = resolved_refs h t bs.
Proof.
  induction bs as [|b bs IH]; [reflexivity|]. cbn [List.filter].
  destruct (resolvable b) eqn:Hb.
  - rewrite !resolved_cons, IH. reflexivity.
  - rewrite resolved_cons, IH.
    apply (ask_None t h) in Hb. rewrite Hb. reflexivity.
Qed.

Lemma rule_step_prune (t : translator) (h : HTTPRoute) (hosts : list string)
    (i : nat) (ctx ctx' : TranslateContext) (rule : HTTPRouteRule) :
  rules_loop_body t h hosts i ctx (prune_rule rule) = Ok ctx'
  ↔ rules_loop_body t h hosts i ctx rule = Ok ctx'.
Proof.
  rewrite !rule_step_iff.
  unfold rule_routes, rule_upstreams, rule_weights.
  cbn [prune_rule BackendRefs Filters].
  rewrite passes_filter, existsb_filter_self, resolved_filter_self.
  reflexivity.
Qed.

(** X14: the backend references the aggregation loop skips (another kind
    than service, or no port) have no part in a successful translation: the
    HTTPRoute without them translates to the same context, and a context the
    HTTPRoute without them translates to is the one the HTTPRoute itself
    translates to. *)
Theorem X14_skipped_backends_ignored (t : translator) (h : HTTPRoute)
    (ctx : TranslateContext) :
  translation t (prune h) = Ok ctx ↔ translation t h = Ok ctx.
Proof.
  unfold prune.
  rewrite (translate_with_Rules GenID ComposeUpstreamName ComposeRouteName
             Endpoint t h).
  unfold TranslateGatewayHTTPRouteV1Alpha2.
  generalize (collect_hosts (Hostnames h)), DefaultEmptyTranslateContext,
    0%nat.
  intros hosts c i0. revert c i0.
  induction (Rules h) as [|rule rules IH]; intros c i0; [reflexivity|].
  cbn [map range_loop_from]. rewrite !bind_Ok. split.
  - intros (c1 & H1 & Hl). exists c1.
    split; [apply rule_step_prune, H1 | apply IH, Hl].
  - intros (c1 & H1 & Hl). exists c1.
    split; [apply rule_step_prune, H1 | apply IH, Hl].
Qed.


Lemma filters_dom (fs : list HTTPRouteFilter) (k : string) :
  is_Some (generatePluginsFromHTTPRouteFilter fs !! k) →
  k = "proxy-rewrite" ∨ k = "redirect".
Proof.
  unfold generatePluginsFromHTTPRouteFilter. rewrite filters_fold_lookup.
  repeat case_decide; auto.
  rewrite lookup_empty. intros [x Hx]. discriminate.
Qed.

Lemma rule_route_origin (t : translator) (h : HTTPRoute) (hosts : list string)
    (i : nat) (ctx ctx' : TranslateContext) (rule : HTTPRouteRule)
    (id : string) (r : Route) :
  rules_loop_body t h hosts i ctx rule = Ok ctx' →
  Routes ctx' !! id = Some r →
  Routes ctx !! id = Some r
  ∨ ∃ j m,
      matches_of rule !! j = Some m
      ∧ route_ID r = route_id GenID ComposeRouteName h i j
      ∧ Uri r = spec_uri m
      ∧ Vars r = Vars (spec_route m)
      ∧ Methods r = Methods (spec_route m)
      ∧ Hosts r = hosts
      ∧ dom (route_Plugins r) ⊆ plugin_keys.
Proof.
  intros Hr Hl. apply rule_step_iff in Hr as [_ Hr].
  destruct (existsb resolvable (BackendRefs rule)); [|subst; auto].
  destruct Hr as [_ ->].
  apply add_routes_lookup in Hl as [Hl | [Hin _]].
  { rewrite add_upstreams_Routes in Hl. auto. }
  right. unfold rule_routes in Hin.
  apply elem_of_lookup_imap in Hin as (j & r0 & -> & Hj).
  apply list_lookup_fmap_Some in Hj as (m & -> & Hm).
  exists j, m. split; [exact Hm|].
  repeat (split; [reflexivity|]).
  intros k Hk. apply elem_of_dom in Hk. simpl in Hk.
  unfold plugin_keys. rewrite !elem_of_union, !elem_of_singleton.
  unfold bound_plugins in Hk.
  destruct (upstreams_of_rule h t rule) as [|u [|u' us]];
    try (apply filters_dom in Hk as [-> | ->]; auto).
  rewrite lookup_insert in Hk. case_decide as Heq; [auto|].
  apply filters_dom in Hk as [-> | ->]; auto.
Qed.

(** X15: every route of the context a translation returns is the route of
    a match of one of the rules (or of the default match of a rule without
    matches): it has the identifier of that position, the URI, variable
    conditions and method of that match, the hostnames of the HTTPRoute,
    and plugins under no other name than proxy-rewrite, redirect and
    traffic-split. *)
Theorem X15_route_origin (t : translator) (h : HTTPRoute)
    (ctx : TranslateContext) (id : string) (r : Route) :
  translation t h = Ok ctx →
  Routes ctx !! id = Some r →
  ∃ i j rule m,
    Rules h !! i = Some rule
    ∧ matches_of rule !! j = Some m
    ∧ route_ID r = route_id GenID ComposeRouteName h i j
    ∧ Uri r = spec_uri m
    ∧ Vars r = Vars (spec_route m)
    ∧ Methods r = Methods (spec_route m)
    ∧ Hosts r = Hostnames h
    ∧ dom (route_Plugins r) ⊆ plugin_keys.
Proof.
  unfold TranslateGatewayHTTPRouteV1Alpha2. rewrite collect_hosts_eq.
  assert (∀ rules i0 c c',
             range_loop_from (rules_loop_body t h (Hostnames h)) i0 c rules
             = Ok c' →
             Routes c' !! id = Some r →
             Routes c !! id = Some r
             ∨ ∃ k j rule m,
                 rules !! k = Some rule
                 ∧ matches_of rule !! j = Some m
                 ∧ route_ID r = route_id GenID ComposeRouteName h (i0 + k) j
                 ∧ Uri r = spec_uri m
                 ∧ Vars r = Vars (spec_route m)
                 ∧ Methods r = Methods (spec_route m)
                 ∧ Hosts r = Hostnames h
                 ∧ dom (route_Plugins r) ⊆ plugin_keys) as Hloop.
  { induction rules as [|rule rules IH]; intros i0 c c' Hl Hid.
    - inversion Hl. subst. auto.
    - cbn [range_loop_from] in Hl. apply bind_Ok in Hl as (c1 & H0 & Hl).
      destruct (IH _ _ _ Hl Hid)
        as [H1 | (k & j & rule' & m & Hk & Hm & Hrid & Hrest)].
      + destruct (rule_route_origin _ _ _ _ _ _ _ _ _ H0 H1)
          as [Hc | (j & m & Hm & Hrest)]; [auto|].
        right. exists 0%nat, j, rule, m. rewrite Nat.add_0_r. auto.
      + right. exists (S k), j, rule', m.
        replace (i0 + S k)%nat with (S i0 + k)%nat by lia. auto. }
  intros Ht Hid.
  destruct (Hloop _ _ _ _ Ht Hid)
    as [Hempty | (k & j & rule & m & Hrest)].
  - simpl in Hempty. rewrite lookup_empty in Hempty. discriminate.
  - exists k, j, rule, m. exact Hrest.
Qed.

End Coverage.

(** * The further properties on concrete input *)

Example redirect_after_header_filter :
  generatePluginsFromHTTPRouteFilter
    [Sample.header_filter; Probe.redirect_filter] !! "redirect"
  = Some (RedirectConfig 302 "https://$host:8443$request_uri").
Proof. vm_compute. reflexivity. Qed.

Lemma X2_first_unknown_type_witness :
  translateGatewayHTTPRouteMatch Probe.bad_path_match
  = Err (errors_New "unknown path match type Bogus")
  ∧ translateGatewayHTTPRouteMatch Probe.bad_header_match
    = Err (errors_New "unknown header match type Fuzzy")
  ∧ translateGatewayHTTPRouteMatch Probe.bad_query_match
    = Err (errors_New "unknown query match type Fuzzy").
Proof.
  split; [|split].
  - apply (proj1 (X2_first_unknown_type Probe.bad_path_match "Bogus")
             {| path_Type := Some "Bogus"; path_Value := None |});
      reflexivity.
  - apply (proj1 (proj2 (X2_first_unknown_type Probe.bad_header_match "Fuzzy"))
             [Probe.exact_header] Probe.fuzzy_header []);
      reflexivity.
  - apply (proj2 (proj2 (X2_first_unknown_type Probe.bad_query_match "Fuzzy"))
             [Probe.exact_query] Probe.fuzzy_query []);
      reflexivity.
Defined.


Lemma X6_filter_steps_compose_witness :
  filter_Type Sample.header_filter ≠ filter_Type Probe.redirect_filter
  ∧ filter_step (filter_step ∅ Sample.header_filter) Probe.redirect_filter
    = filter_step (filter_step ∅ Probe.redirect_filter) Sample.header_filter.
Proof.
  assert (filter_Type Sample.header_filter
          ≠ filter_Type Probe.redirect_filter) as Hne by discriminate.
  split; [exact Hne|].
  apply (proj2 (X6_filter_steps_compose ∅ Sample.header_filter
                  Probe.redirect_filter) Hne).
Defined.

Lemma X7_rule_string_injective_witness :
  rule_string 12 3 = "12-3" ∧ (12 = 12 ∧ 3 = 3)%nat.
Proof.
  split; [reflexivity|].
  apply (X7_rule_string_injective 12 3 12 3). reflexivity.
Defined.

Lemma X8_rule_routes_witness :
  Sample.step Sample.resolver Sample.h_two ["foo.com"] 1
              DefaultEmptyTranslateContext Sample.rule_split
  = Ok (Sample.the_ctx
          (Sample.step Sample.resolver Sample.h_two ["foo.com"] 1
                       DefaultEmptyTranslateContext Sample.rule_split))
  ∧ existsb resolvable (BackendRefs Sample.rule_split) = true
  ∧ map route_ID
        (rule_routes Sample.GenID Sample.ComposeUpstreamName
           Sample.ComposeRouteName Sample.Endpoint Sample.h_two
           Sample.resolver ["foo.com"] 1 Sample.rule_split
           (map spec_route (matches_of Sample.rule_split)))
    = ["id:default_r_1-0"; "id:default_r_1-1"].
Proof.
  assert (Sample.step Sample.resolver Sample.h_two ["foo.com"] 1
                      DefaultEmptyTranslateContext Sample.rule_split
          = Ok (Sample.the_ctx
                  (Sample.step Sample.resolver Sample.h_two ["foo.com"] 1
                               DefaultEmptyTranslateContext
                               Sample.rule_split))) as H1
    by (vm_compute; reflexivity).
  split; [exact H1|]. split; [reflexivity|].
  destruct (X8_rule_routes
              Sample.GenID Sample.ComposeUpstreamName Sample.ComposeRouteName
              Sample.Endpoint Sample.resolver Sample.h_two ["foo.com"] 1
              DefaultEmptyTranslateContext _ Sample.rule_split H1 eq_refl)
    as (_ & _ & Hids).
  rewrite Hids. reflexivity.
Defined.

Lemma X9_match_failure_witness :
  Sample.translate Sample.resolver Probe.h_late
  = Err (errors_Wrap (errors_New "unknown header match type Fuzzy")
           "failed to translate Rules[1].Matches[1]").
Proof.
  apply (X9_match_failure
           Sample.GenID Sample.ComposeUpstreamName Sample.ComposeRouteName
           Sample.Endpoint Sample.resolver Probe.h_late
           [Sample.rule_default] [] Probe.rule_late_failure
           [Sample.path_match PathMatchExact "/a"]
           [Sample.path_match "Bogus" "/z"] Probe.bad_header_match
           (errors_New "unknown header match type Fuzzy")
           (Sample.the_ctx
              (Sample.translate Sample.resolver
                 (with_Rules Probe.h_late [Sample.rule_default]))));
    reflexivity.
Defined.

Lemma X11_resolver_use_witness :
  TranslateService Sample.resolver "default" "elsewhere" "" 80
  ≠ TranslateService Probe.picky_resolver "default" "elsewhere" "" 80
  ∧ Sample.translate Sample.resolver Sample.h_two
    = Sample.translate Probe.picky_resolver Sample.h_two.
Proof.
  split; [discriminate|].
  apply (X11_resolver_use
           Sample.GenID Sample.ComposeUpstreamName Sample.ComposeRouteName
           Sample.Endpoint Sample.resolver Probe.picky_resolver Sample.h_two).
  intros rule b Hrule Hb.
  repeat (apply elem_of_cons in Hrule as [-> | Hrule]);
    try (apply elem_of_nil in Hrule as []);
    repeat (apply elem_of_cons in Hb as [-> | Hb]);
    try (apply elem_of_nil in Hb as []);
    reflexivity.
Defined.

Lemma X12_no_panic_witness :
  route_wf Sample.h_bogus = true
  ∧ ((∃ ctx, Sample.translate Sample.resolver Sample.h_bogus = Ok ctx)
     ∨ (∃ e, Sample.translate Sample.resolver Sample.h_bogus = Err e)).
Proof.
  split; [reflexivity|].
  apply (X12_no_panic
           Sample.GenID Sample.ComposeUpstreamName Sample.ComposeRouteName
           Sample.Endpoint Sample.resolver Sample.h_bogus resolver_no_panic).
  reflexivity.
Defined.

Lemma X13_upstream_origin_witness :
  Sample.translate Sample.resolver Sample.h_skip
  = Ok (Sample.the_ctx (Sample.translate Sample.resolver Sample.h_skip))
  ∧ Upstreams (Sample.the_ctx (Sample.translate Sample.resolver Sample.h_skip))
    !! "id:default_svc_80" = Some Sample.upstream_svc
  ∧ ∃ i rule b port u0,
      Rules Sample.h_skip !! i = Some rule
      ∧ b ∈ BackendRefs rule
      ∧ backend_kind b = "service"
      ∧ backend_Port b = Some port
      ∧ TranslateService Sample.resolver (backend_ns Sample.h_skip b)
                         (backend_Name b) "" (int32 port) = Ok u0
      ∧ Sample.upstream_svc
        = labelled Sample.GenID Sample.ComposeUpstreamName Sample.Endpoint
                   Sample.h_skip b u0
      ∧ "id:default_svc_80"
        = upstream_id Sample.GenID Sample.ComposeUpstreamName Sample.Endpoint
                      Sample.h_skip b.
Proof.
  assert (Sample.translate Sample.resolver Sample.h_skip
          = Ok (Sample.the_ctx
                  (Sample.translate Sample.resolver Sample.h_skip))) as H1
    by (vm_compute; reflexivity).
  assert (Upstreams
            (Sample.the_ctx (Sample.translate Sample.resolver Sample.h_skip))
          !! "id:default_svc_80" = Some Sample.upstream_svc) as H2
    by (vm_compute; reflexivity).
  split; [exact H1|]. split; [exact H2|].
  apply (X13_upstream_origin
           Sample.GenID Sample.ComposeUpstreamName Sample.ComposeRouteName
           Sample.Endpoint Sample.resolver Sample.h_skip _ _ _ H1 H2).
Defined.

Lemma X15_route_origin_witness :
  Sample.translate Sample.resolver Sample.h_skip
  = Ok (Sample.the_ctx (Sample.translate Sample.resolver Sample.h_skip))
  ∧ Routes (Sample.the_ctx (Sample.translate Sample.resolver Sample.h_skip))
    !! "id:default_r_1-0" = Some (Sample.route_default "id:default_r_1-0")
  ∧ ∃ i j rule m,
      Rules Sample.h_skip !! i = Some rule
      ∧ matches_of rule !! j = Some m
      ∧ route_ID (Sample.route_default "id:default_r_1-0")
        = route_id Sample.GenID Sample.ComposeRouteName Sample.h_skip i j
      ∧ Uri (Sample.route_default "id:default_r_1-0") = spec_uri m
      ∧ Vars (Sample.route_default "id:default_r_1-0") = Vars (spec_route m)
      ∧ Methods (Sample.route_default "id:default_r_1-0")
        = Methods (spec_route m)
      ∧ Hosts (Sample.route_default "id:default_r_1-0")
        = Hostnames Sample.h_skip
      ∧ dom (route_Plugins (Sample.route_default "id:default_r_1-0"))
        ⊆ plugin_keys.
Proof.
  assert (Sample.translate Sample.resolver Sample.h_skip
          = Ok (Sample.the_ctx
                  (Sample.translate Sample.resolver Sample.h_skip))) as H1
    by (vm_compute; reflexivity).
  assert (Routes
            (Sample.the_ctx (Sample.translate Sample.resolver Sample.h_skip))
          !! "id:default_r_1-0"
          = Some (Sample.route_default "id:default_r_1-0")) as H2
    by (vm_compute; reflexivity).
  split; [exact H1|]. split; [exact H2|].
  apply (X15_route_origin
           Sample.GenID Sample.ComposeUpstreamName Sample.ComposeRouteName
           Sample.Endpoint Sample.resolver Sample.h_skip _ _ _ H1 H2).
Defined.
